(** * Smart nearby-places recommender: the place-discovery pipeline

    A shallow embedding of [src/App.js]: the great-circle distance, the
    Overpass query text, the normaliser that turns raw OpenStreetMap elements
    into places, and the filter and sort applied before display.

    Conventions of the embedding.
    - A JavaScript number that is an integer by construction (price level,
      review count, radius, hour, identifier) is a [Z]; any other number is a
      [Q], the exact value of the double.  Where the source computes with
      such numbers (the rating and the review count) every operation is
      followed by the rounding to the nearest double.  [undefined] and [null]
      are [None].
    - An object used as a dictionary ([element.tags], [MOOD_PRESETS]) is a
      [gmap string _].
    - [Math.random()] and [new Date().getHours()] are read from a host, the
      n-th call returning the n-th value; the number of calls made is threaded
      as state.
    - [calculateDistance] calls the sine, cosine, arc tangent and square root
      of the engine, which the language leaves to the implementation; the
      normaliser takes it as a parameter. *)

From Stdlib Require Import QArith Qround Qabs Qpower Psatz Permutation Sorted.
From Stdlib Require Import DecimalString.
From stdpp Require Import gmap strings list.

(** ** JavaScript truthiness and [||] *)

Class Truthy (A : Type) := truthy : A -> bool.

#[global] Instance Truthy_string : Truthy string :=
  fun s => negb (String.eqb s "").

#[global] Instance Truthy_Q : Truthy Q :=
  fun q => negb (Qeq_bool q 0).

#[global] Instance Truthy_option {A : Type} `{Truthy A} : Truthy (option A) :=
  fun v => match v with Some a => truthy a | None => false end.

(** [a || b] *)
Definition js_or {A : Type} `{Truthy A} (a b : A) : A :=
  if truthy a then a else b.

(** [q < r] on numbers *)
Definition Qltb (q r : Q) : bool :=
  match (q ?= r)%Q with Lt => true | _ => false end.

(** ** Data *)

Module Coordinate.
Record t := { lat : Q; lng : Q }.
End Coordinate.

Module Center.
Record t := { lat : option Q; lon : option Q }.
End Center.

Module Element.
Record t := {
  id : Z;
  lat : option Q;
  lon : option Q;
  center : option Center.t;
  tags : option (gmap string string)
}.
End Element.

Module Place.
Record t := {
  id : Z;
  name : string;
  address : string;
  rating : Q;
  userRatingsTotal : Z;
  priceLevel : Z;
  distance : Q;
  openNow : bool;
  location : Coordinate.t;
  amenity : option string;
  cuisine : string;
  phone : option string;
  website : option string;
  osmId : Z
}.
End Place.

(** ** The host: random source, wall clock, geolocation and network *)

(** How a call or an awaited promise ends. *)
Inductive Outcome (A : Type) : Type :=
| Returned (a : A)
| Thrown (message : string).

Arguments Returned {A} a.
Arguments Thrown {A} message.

(** What [navigator.geolocation] does when asked for the position. *)
Inductive Geolocation :=
| Unsupported
| Denied
| Position (latitude longitude : Q).

(** A response of [fetch]: its [ok] flag, and what [json()] resolves to; the
    [elements] member of the document may be missing. *)
Record Response := {
  ok : bool;
  json : Outcome (option (list Element.t))
}.

Record Host := {
  Math_random : nat -> Q;
  getHours : nat -> Z;
  geolocation : Geolocation;
  fetch : string -> Outcome Response;
  (** the message of the [TypeError] raised on reading a member of
      [undefined] *)
  typeErrorMessage : string;
  (** [Number.prototype.toString] on a coordinate *)
  numberToString : Q -> string
}.

Record Calls := { randomCalls : nat; clockCalls : nat }.

Definition Eff (A : Type) : Type := Calls -> A * Calls.

Definition ret {A : Type} (a : A) : Eff A := fun c => (a, c).

Definition bind {A B : Type} (m : Eff A) (k : A -> Eff B) : Eff B :=
  fun c => let (a, c') := m c in k a c'.

Notation "'let*' x ':=' m 'in' k" := (bind m (fun x => k))
  (at level 10, x name, m at level 100, k at level 200).

Definition random (h : Host) : Eff Q :=
  fun c => (Math_random h (randomCalls c),
            {| randomCalls := S (randomCalls c); clockCalls := clockCalls c |}).

Definition currentHour (h : Host) : Eff Z :=
  fun c => (getHours h (clockCalls c),
            {| randomCalls := randomCalls c; clockCalls := S (clockCalls c) |}).

Fixpoint mapM {A B : Type} (f : A -> Eff B) (l : list A) : Eff (list B) :=
  match l with
  | [] => ret []
  | a :: l' => let* b := f a in let* bs := mapM f l' in ret (b :: bs)
  end.

(** ** The normaliser (lines 118-168) *)

(** [Array.prototype.includes] *)
Definition includes {A : Type} `{EqDecision A} (l : list A) (x : A) : bool :=
  bool_decide (x ∈ l).

Definition expensiveCuisines : list string :=
  ["french"; "japanese"; "italian"; "sushi"]%string.

(** Lines 131-137: the tier starts at 2 and each [if] may overwrite it. *)
Definition priceLevelOf (tags : gmap string string) : Z :=
  let priceLevel := 2%Z in
  let priceLevel :=
    if decide (tags !! "amenity"%string = Some "fast_food"%string)
    then 1%Z else priceLevel in
  let priceLevel :=
    if decide (tags !! "cuisine"%string = Some "fine_dining"%string)
    then 4%Z else priceLevel in
  if bool_decide (tags !! "amenity"%string = Some "restaurant"%string)
     && truthy (tags !! "cuisine"%string)
  then
    if includes expensiveCuisines (default ""%string (tags !! "cuisine"%string))
    then 3%Z else 2%Z
  else priceLevel.

(** Lines 140-147. *)
Definition openNowOf (amenity : option string) (hour : Z) : bool :=
  if decide (amenity = Some "cafe"%string) then
    (7 <=? hour)%Z && (hour <? 22)%Z
  else if decide (amenity = Some "restaurant"%string) then
    ((11 <=? hour)%Z && (hour <? 15)%Z) || ((17 <=? hour)%Z && (hour <? 23)%Z)
  else if decide (amenity = Some "bar"%string) then
    (16 <=? hour)%Z && (hour <? 2)%Z
  else true.

(** *** Arithmetic on doubles

    A finite double is [m * 2^e] with [|m| < 2^53] and [-1074 <= e <= 971].
    An arithmetic operation returns the double nearest to the exact result,
    the one with an even significand on a tie.  The rounding below is that
    one as long as the exact result stays below [2^1024] in magnitude, which
    it does in all that follows (no value exceeds 520). *)

Definition pow2 (e : Z) : Q := (2 ^ e)%Q.

(** The integer part of the binary logarithm of a positive number. *)
Definition Qlog2 (x : Q) : Z :=
  let k := (Z.log2 (Qnum x) - Z.log2 (Zpos (Qden x)))%Z in
  if Qle_bool (pow2 k) x then k else (k - 1)%Z.

(** The nearest integer, the even one on a tie. *)
Definition roundEven (y : Q) : Z :=
  let f := Qfloor y in
  match (y - inject_Z f ?= 1 # 2)%Q with
  | Lt => f
  | Gt => (f + 1)%Z
  | Eq => if Z.even f then f else (f + 1)%Z
  end.

(** The exponent of the last of the 53 bits of [x], not below -1074. *)
Definition ulpExponent (x : Q) : Z := Z.max (Qlog2 x - 52) (-1074).

Definition roundPositive (x : Q) : Q :=
  let e := ulpExponent x in
  (inject_Z (roundEven (x * pow2 (- e))) * pow2 e)%Q.

(** The double nearest to [x]. *)
Definition roundDouble (x : Q) : Q :=
  match (x ?= 0)%Q with
  | Eq => 0%Q
  | Gt => roundPositive x
  | Lt => (- roundPositive (- x))%Q
  end.

(** [a + b] and [a * b] on doubles *)
Definition js_add (a b : Q) : Q := roundDouble (a + b).
Definition js_mul (a b : Q) : Q := roundDouble (a * b).

(** The number that the digits of [x.toFixed(1)] denote: the multiple of one
    tenth nearest to the exact value of [x], the larger one on a tie. *)
Definition toFixed1 (x : Q) : Q := (Qfloor (x * 10 + (1 # 2)) # 10)%Q.

(** [parseFloat] on the digits of the number [q]: the double nearest to it. *)
Definition parseFloat (q : Q) : Q := roundDouble q.

(** Line 128 followed by line 155. *)
Definition ratingOf (u : Q) : Q :=
  parseFloat (toFixed1 (js_add 3.5 (js_mul u 1.5))).

(** Line 129. *)
Definition reviewCountOf (v : Q) : Z :=
  (Qfloor (js_mul v 500) + 20)%Z.

(** Lines 152-154. *)
Definition addressOf (tags : gmap string string) : string :=
  if truthy (tags !! "addr:street"%string) then
    default ""%string
      (js_or (tags !! "addr:housenumber"%string) (Some ""%string))
    +:+ " " +:+ default ""%string (tags !! "addr:street"%string)
  else
    default ""%string
      (js_or (tags !! "addr:city"%string) (Some "Address not available"%string)).

(** Line 119: [element.tags && element.tags.name]. *)
Definition hasName (element : Element.t) : bool :=
  match Element.tags element with
  | Some tags => truthy (tags !! "name"%string)
  | None => false
  end.

Section Normaliser.

(** [calculateDistance] (lines 64-73) as it runs on doubles with the sine,
    cosine, arc tangent and square root of the engine; the normaliser only
    stores its result. *)
Variable calculateDistance : Q -> Q -> Q -> Q -> Q.
Variable host : Host.

(** Lines 120-167, the callback given to [map].  It only ever runs on
    elements that passed [hasName], so [tags] is present. *)
Definition toPlace (location : Coordinate.t) (element : Element.t)
  : Eff (option Place.t) :=
  let tags := default ∅ (Element.tags element) in
  let lat := js_or (Element.lat element)
                   (Element.center element ≫= Center.lat) in
  let lon := js_or (Element.lon element)
                   (Element.center element ≫= Center.lon) in
  match lat, lon with
  | Some lat, Some lon =>
    if negb (truthy lat) || negb (truthy lon) then ret None
    else
      let distance :=
        calculateDistance (Coordinate.lat location) (Coordinate.lng location)
                          lat lon in
      let* u := random host in
      let* v := random host in
      let priceLevel := priceLevelOf tags in
      let* hour := currentHour host in
      let openNow := openNowOf (tags !! "amenity"%string) hour in
      ret (Some {|
        Place.id := Element.id element;
        Place.name := default ""%string (tags !! "name"%string);
        Place.address := addressOf tags;
        Place.rating := ratingOf u;
        Place.userRatingsTotal := reviewCountOf v;
        Place.priceLevel := priceLevel;
        Place.distance := distance;
        Place.openNow := openNow;
        Place.location := {| Coordinate.lat := lat; Coordinate.lng := lon |};
        Place.amenity := tags !! "amenity"%string;
        Place.cuisine :=
          default ""%string
            (js_or (tags !! "cuisine"%string) (Some "Various"%string));
        Place.phone :=
          js_or (tags !! "phone"%string) (tags !! "contact:phone"%string);
        Place.website :=
          js_or (tags !! "website"%string) (tags !! "contact:website"%string);
        Place.osmId := Element.id element
      |})
  | _, _ => ret None
  end.

(** [.filter(place => place !== null)] *)
Definition dropNull (l : list (option Place.t)) : list Place.t :=
  omap (fun place => place) l.

(** Lines 118-168. *)
Definition processedPlaces (location : Coordinate.t)
    (elements : list Element.t) : Eff (list Place.t) :=
  let* mapped := mapM (toPlace location) (List.filter hasName elements) in
  ret (dropNull mapped).

End Normaliser.

(** ** Filter and sort for display (lines 188-207) *)

(** Lines 188-192, the callback given to [filter]. *)
Definition keepPlace (priceFilter : list Z) (ratingFilter : Q)
    (place : Place.t) : bool :=
  if negb (includes priceFilter (Place.priceLevel place)) then false
  else if Qltb (Place.rating place) ratingFilter then false
  else true.

Definition filteredPlaces (places : list Place.t) (priceFilter : list Z)
    (ratingFilter : Q) : list Place.t :=
  List.filter (keepPlace priceFilter ratingFilter) places.

(** Lines 194-207, the comparator given to [sort]. *)
Definition compareBy (sortBy : string) (a b : Place.t) : Q :=
  if String.eqb sortBy "distance" then
    (Place.distance a - Place.distance b)%Q
  else if String.eqb sortBy "rating" then
    (Place.rating b - Place.rating a)%Q
  else if String.eqb sortBy "price_low" then
    inject_Z (Place.priceLevel a - Place.priceLevel b)
  else if String.eqb sortBy "price_high" then
    inject_Z (Place.priceLevel b - Place.priceLevel a)
  else 0%Q.

(** [Array.prototype.sort(comparefn)] is a stable sort: [a] is moved behind
    [b] only when [comparefn(a, b) > 0].  Its result is that of the stable
    insertion sort below. *)
Section ArraySort.

Context {A : Type}.
Variable comparefn : A -> A -> Q.

Fixpoint insertSorted (x : A) (l : list A) : list A :=
  match l with
  | [] => [x]
  | y :: l' =>
    if Qltb 0 (comparefn x y) then y :: insertSorted x l' else x :: y :: l'
  end.

Fixpoint array_sort (l : list A) : list A :=
  match l with
  | [] => []
  | x :: l' => insertSorted x (array_sort l')
  end.

End ArraySort.

Definition sortedPlaces (filteredPlaces : list Place.t) (sortBy : string)
  : list Place.t :=
  array_sort (compareBy sortBy) filteredPlaces.

(** ** Arrays as heap objects

    [filter] and the spread [[...a]] allocate a new array; [sort] reorders the
    array it is called on and returns that same array. *)

Module Heap.

Abbreviation loc := positive.
Abbreviation heap := (gmap positive (list Place.t)).

Definition alloc (v : list Place.t) (h : heap) : loc * heap :=
  let l := fresh (dom h) in (l, <[l := v]> h).

Definition Array_filter (f : Place.t -> bool) (arr : loc) (h : heap)
  : option (loc * heap) :=
  v ← h !! arr; Some (alloc (List.filter f v) h).

Definition Array_spread (arr : loc) (h : heap) : option (loc * heap) :=
  v ← h !! arr; Some (alloc v h).

Definition Array_sort (comparefn : Place.t -> Place.t -> Q) (arr : loc)
    (h : heap) : option (loc * heap) :=
  v ← h !! arr; Some (arr, <[arr := array_sort comparefn v]> h).

(** Lines 188-207 as they run on each render: [places] is the array held in
    the component state. *)
Definition render (places : loc) (priceFilter : list Z) (ratingFilter : Q)
    (sortBy : string) (h : heap) : option (loc * loc * heap) :=
  '(filteredPlaces, h) ← Array_filter (keepPlace priceFilter ratingFilter) places h;
  '(copy, h) ← Array_spread filteredPlaces h;
  '(sortedPlaces, h) ← Array_sort (compareBy sortBy) copy h;
  Some (filteredPlaces, sortedPlaces, h).

End Heap.

(** ** The search (lines 16-41 and 75-181) *)

Module Mood.
Record t := {
  label : string;
  tags : list string;
  keywords : string;
  description : string
}.

Definition work : t :=
  {| label := "💼 Work";
     tags := ["cafe"; "coworking_space"; "library"]%string;
     keywords := "cafe coworking wifi";
     description := "Quiet places with good wifi" |}.

Definition date : t :=
  {| label := "❤️ Date";
     tags := ["restaurant"; "cafe"; "bar"]%string;
     keywords := "restaurant romantic dining";
     description := "Romantic spots with ambiance" |}.

Definition quickBite : t :=
  {| label := "🍔 Quick Bite";
     tags := ["fast_food"; "restaurant"; "cafe"]%string;
     keywords := "fast food quick restaurant";
     description := "Fast and convenient eats" |}.

Definition budget : t :=
  {| label := "💰 Budget";
     tags := ["fast_food"; "cafe"; "restaurant"]%string;
     keywords := "cheap affordable budget restaurant";
     description := "Affordable options" |}.
End Mood.

Definition MOOD_PRESETS : gmap string Mood.t :=
  list_to_map [
    ("work"%string, Mood.work);
    ("date"%string, Mood.date);
    ("quickBite"%string, Mood.quickBite);
    ("budget"%string, Mood.budget)
  ].

(** The component state (lines 5-14). *)
Record AppState := {
  selectedMood : string;
  places : list Place.t;
  loading : bool;
  error : string;
  userLocation : option Coordinate.t;
  sortBy : string;
  filterOpen : bool;
  priceFilter : list Z;
  ratingFilter : Q;
  searchRadius : Z
}.

Definition setPlaces (v : list Place.t) (s : AppState) : AppState :=
  {| selectedMood := selectedMood s; places := v; loading := loading s;
     error := error s; userLocation := userLocation s; sortBy := sortBy s;
     filterOpen := filterOpen s; priceFilter := priceFilter s;
     ratingFilter := ratingFilter s; searchRadius := searchRadius s |}.

Definition setLoading (v : bool) (s : AppState) : AppState :=
  {| selectedMood := selectedMood s; places := places s; loading := v;
     error := error s; userLocation := userLocation s; sortBy := sortBy s;
     filterOpen := filterOpen s; priceFilter := priceFilter s;
     ratingFilter := ratingFilter s; searchRadius := searchRadius s |}.

Definition setError (v : string) (s : AppState) : AppState :=
  {| selectedMood := selectedMood s; places := places s; loading := loading s;
     error := v; userLocation := userLocation s; sortBy := sortBy s;
     filterOpen := filterOpen s; priceFilter := priceFilter s;
     ratingFilter := ratingFilter s; searchRadius := searchRadius s |}.

Definition setUserLocation (v : option Coordinate.t) (s : AppState)
  : AppState :=
  {| selectedMood := selectedMood s; places := places s; loading := loading s;
     error := error s; userLocation := v; sortBy := sortBy s;
     filterOpen := filterOpen s; priceFilter := priceFilter s;
     ratingFilter := ratingFilter s; searchRadius := searchRadius s |}.

Definition setSelectedMood (v : string) (s : AppState) : AppState :=
  {| selectedMood := v; places := places s; loading := loading s;
     error := error s; userLocation := userLocation s; sortBy := sortBy s;
     filterOpen := filterOpen s; priceFilter := priceFilter s;
     ratingFilter := ratingFilter s; searchRadius := searchRadius s |}.

(** The double quote and the line feed of the template literals. *)
Definition dquote : string := String (Ascii.ascii_of_nat 34) EmptyString.
Definition newline : string := String (Ascii.ascii_of_nat 10) EmptyString.

(** [String(n)] on an integer *)
Definition intToString (n : Z) : string :=
  NilEmpty.string_of_int (Z.to_int n).

(** [Array.prototype.join('')] *)
Definition join (l : list string) : string := foldr String.append ""%string l.

(** One statement of lines 89-90: [kind] is [node] or [way]. *)
Definition around (kind tag radius lat lng : string) : string :=
  kind +:+ "[" +:+ dquote +:+ "amenity" +:+ dquote +:+ "=" +:+ dquote +:+ tag
  +:+ dquote +:+ "](around:" +:+ radius +:+ "," +:+ lat +:+ "," +:+ lng
  +:+ ");".

(** Lines 88-91, the callback given to [map]. *)
Definition tagQuery (radius lat lng tag : string) : string :=
  newline +:+ "          " +:+ around "node" tag radius lat lng
  +:+ newline +:+ "          " +:+ around "way" tag radius lat lng
  +:+ newline +:+ "        ".

(** Lines 84-102.  Reading [tags] of an unregistered mood raises. *)
Definition overpassQuery (host : Host) (mood : string)
    (location : Coordinate.t) (radiusInMeters : Z) : Outcome string :=
  match MOOD_PRESETS !! mood with
  | None => Thrown (typeErrorMessage host)
  | Some moodConfig =>
    let queries :=
      join (map (tagQuery (intToString radiusInMeters)
                   (numberToString host (Coordinate.lat location))
                   (numberToString host (Coordinate.lng location)))
                (Mood.tags moodConfig)) in
    Returned (newline +:+ "        [out:json][timeout:25];"
      +:+ newline +:+ "        ("
      +:+ newline +:+ "          " +:+ queries
      +:+ newline +:+ "        );"
      +:+ newline +:+ "        out body;"
      +:+ newline +:+ "        >;"
      +:+ newline +:+ "        out skel qt;"
      +:+ newline +:+ "      ")
  end.

(** Lines 43-62. *)
Definition getUserLocation (host : Host) : Outcome Coordinate.t :=
  match geolocation host with
  | Unsupported => Thrown "Geolocation not supported"
  | Denied => Thrown "Please enable location access to find nearby places"
  | Position latitude longitude =>
    Returned {| Coordinate.lat := latitude; Coordinate.lng := longitude |}
  end.

(** The state a search runs in: the component state and the host calls made
    so far. *)
Record World := { state : AppState; calls : Calls }.

(** A computation that changes the world and returns or throws. *)
Definition Task (A : Type) : Type := World -> Outcome A * World.

Definition pure {A : Type} (a : A) : Task A := fun w => (Returned a, w).

Definition throw {A : Type} (message : string) : Task A :=
  fun w => (Thrown message, w).

Definition andThen {A B : Type} (m : Task A) (k : A -> Task B) : Task B :=
  fun w =>
    match m w with
    | (Returned a, w') => k a w'
    | (Thrown message, w') => (Thrown message, w')
    end.

Notation "'let!' x ':=' m 'in' k" := (andThen m (fun x => k))
  (at level 10, x name, m at level 100, k at level 200).

(** [await p], and the use of a value that raises when it is missing *)
Definition await {A : Type} (p : Outcome A) : Task A := fun w => (p, w).

Definition update (f : AppState -> AppState) : Task unit :=
  fun w => (Returned tt, {| state := f (state w); calls := calls w |}).

Definition readState {A : Type} (f : AppState -> A) : Task A :=
  fun w => (Returned (f (state w)), w).

Definition liftEff {A : Type} (m : Eff A) : Task A :=
  fun w => let (a, c) := m (calls w) in
           (Returned a, {| state := state w; calls := c |}).

Definition noPlacesMessage : string :=
  "No places found nearby. Try increasing the search radius or selecting a different mood.".

Section Search.

Variable calculateDistance : Q -> Q -> Q -> Q -> Q.
Variable host : Host.

(** Lines 81-174, the body of [try]. *)
Definition tryBlock (mood : string) : Task unit :=
  let! location := await (getUserLocation host) in
  let! _ := update (setUserLocation (Some location)) in
  let! radiusInMeters := readState searchRadius in
  let! overpassQuery := await (overpassQuery host mood location radiusInMeters) in
  let! response := await (fetch host overpassQuery) in
  if negb (ok response) then throw "Failed to fetch places data"
  else
    let! data := await (json response) in
    let! elements :=
      await (match data with
             | Some elements => Returned elements
             | None => Thrown (typeErrorMessage host)
             end) in
    let! processedPlaces :=
      liftEff (processedPlaces calculateDistance host location elements) in
    let! _ := update (setPlaces processedPlaces) in
    if (length processedPlaces =? 0)%nat then update (setError noPlacesMessage)
    else pure tt.

(** Lines 75-181: the world once the search has settled. *)
Definition searchPlacesOverpass (mood : string) (w : World) : World :=
  let w :=
    {| state := setPlaces [] (setError "" (setLoading true (state w)));
       calls := calls w |} in
  let (outcome, w) := tryBlock mood w in
  let w :=
    match outcome with
    | Returned _ => w
    | Thrown message =>
      {| state :=
           setError (js_or message "Failed to fetch places. Please try again.")
                    (state w);
         calls := calls w |}
    end in
  {| state := setLoading false (state w); calls := calls w |}.

(** Lines 183-186. *)
Definition handleMoodSelect (mood : string) (w : World) : World :=
  searchPlacesOverpass mood
    {| state := setSelectedMood mood (state w); calls := calls w |}.

End Search.

(** ** The display (lines 209-211 and 271-457) *)

(** [String.prototype.repeat] with a count that is not negative. *)
Fixpoint repeatString (s : string) (count : nat) : string :=
  match count with
  | O => ""%string
  | S count' => s +:+ repeatString s count'
  end.

(** Lines 209-211.  [repeat] raises a RangeError on a negative count, and on
    a count that would make the string longer than [maxStringLength], the
    longest string of the engine. *)
Definition getPriceSymbol (maxStringLength : Z) (level : Z) : option string :=
  if (level <? 0)%Z || (maxStringLength <? level)%Z then None
  else Some (repeatString "$" (Z.to_nat level)).


(** Lines 324-328, the updater given to [setPriceFilter]. *)
Definition togglePrice (level : Z) (prev : list Z) : list Z :=
  if includes prev level
  then List.filter (fun l => negb (l =? level)%Z) prev
  else prev ++ [level].


(** Lines 188-207 on the component state: the list that is rendered. *)
Definition displayedPlaces (s : AppState) : list Place.t :=
  sortedPlaces (filteredPlaces (places s) (priceFilter s) (ratingFilter s))
               (sortBy s).

(** Which blocks the component renders: the error box (line 271), the
    spinner (277), the result panel (284), inside it the no-match notice
    (442), and the invitation to select a mood (452). *)
Record View := {
  errorBox : bool;
  spinner : bool;
  resultPanel : bool;
  noMatchNotice : bool;
  invitation : bool
}.

Definition view (s : AppState) : View :=
  {| errorBox := truthy (error s);
     spinner := loading s;
     resultPanel := negb (loading s) && (0 <? length (places s))%nat;
     noMatchNotice :=
       (negb (loading s) && (0 <? length (places s))%nat)
       && (length (displayedPlaces s) =? 0)%nat;
     invitation :=
       negb (loading s) && negb (truthy (error s))
       && (length (places s) =? 0)%nat && negb (truthy (selectedMood s)) |}.

(** * Properties *)

(** ** Definitions used to state the properties *)

(** What lines 131-137 compute, as a table on the two tags read. *)
Definition priceTier (amenity cuisine : option string) : Z :=
  if bool_decide (amenity = Some "restaurant"%string) && truthy cuisine then
    if bool_decide (default ""%string cuisine ∈ expensiveCuisines)
    then 3%Z else 2%Z
  else if bool_decide (cuisine = Some "fine_dining"%string) then 4%Z
  else if bool_decide (amenity = Some "fast_food"%string) then 1%Z
  else 2%Z.

(** The coordinate the normaliser resolves for an element, component by
    component. *)
Definition resolvedLat (element : Element.t) : option Q :=
  js_or (Element.lat element) (Element.center element ≫= Center.lat).

Definition resolvedLon (element : Element.t) : option Q :=
  js_or (Element.lon element) (Element.center element ≫= Center.lon).

(** The elements the normaliser keeps. *)
Definition usable (element : Element.t) : bool :=
  hasName element && truthy (resolvedLat element)
  && truthy (resolvedLon element).

(** [s] occurs in [q]. *)
Definition occursIn (s q : string) : Prop :=
  exists before after : string, q = before +:+ s +:+ after.

(** The calls made once an element has been turned into a place. *)
Definition afterPlace (c : Calls) : Calls :=
  {| randomCalls := S (S (randomCalls c)); clockCalls := S (clockCalls c) |}.

(** The price tier where the rules do not collide by accident: a restaurant
    whose cuisine is [fine_dining] is left out. *)
Definition designedTier (amenity cuisine : option string) : option Z :=
  if bool_decide (amenity = Some "restaurant"%string) && truthy cuisine then
    if bool_decide (cuisine = Some "fine_dining"%string) then None
    else Some (if bool_decide (default ""%string cuisine ∈ expensiveCuisines)
               then 3%Z else 2%Z)
  else if bool_decide (cuisine = Some "fine_dining"%string) then Some 4%Z
  else if bool_decide (amenity = Some "fast_food"%string) then Some 1%Z
  else Some 2%Z.

(** The numbers that are finite doubles. *)
Definition isDouble (x : Q) : Prop :=
  exists m e : Z,
    (-1074 <= e <= 971)%Z /\ (Z.abs m < 2 ^ 53)%Z
    /\ (x == inject_Z m * pow2 e)%Q.

(** The keys by which the four known comparators order, larger key first. *)
Definition sortKeyOf (sortBy : string) (place : Place.t) : Q :=
  if String.eqb sortBy "distance" then (- Place.distance place)%Q
  else if String.eqb sortBy "rating" then Place.rating place
  else if String.eqb sortBy "price_low" then
    inject_Z (- Place.priceLevel place)
  else if String.eqb sortBy "price_high" then
    inject_Z (Place.priceLevel place)
  else 0%Q.

(** The state in which only what a search may change is kept from [s]. *)
Definition withResults (places' : list Place.t) (error' : string)
    (loading' : bool) (s : AppState) : AppState :=
  setPlaces places' (setError error' (setLoading loading' s)).

(** ** Sample inputs

    The scenario of a search around (40.0, -75.0): a named cafe, an element
    without a name, and a named cafe lying on the equator. *)

Definition blueCafe : Element.t :=
  {| Element.id := 101;
     Element.lat := Some 40.001%Q;
     Element.lon := Some (-75.001)%Q;
     Element.center := None;
     Element.tags :=
       Some (<["name"%string := "Blue Cafe"%string]>
               (<["amenity"%string := "cafe"%string]> ∅)) |}.

Definition unnamed : Element.t :=
  {| Element.id := 102;
     Element.lat := Some 40.002%Q;
     Element.lon := Some (-75.002)%Q;
     Element.center := None;
     Element.tags := Some (<["amenity"%string := "cafe"%string]> ∅) |}.

Definition equatorCafe : Element.t :=
  {| Element.id := 103;
     Element.lat := Some 0%Q;
     Element.lon := Some 10%Q;
     Element.center := None;
     Element.tags :=
       Some (<["name"%string := "Equator Cafe"%string]>
               (<["amenity"%string := "cafe"%string]> ∅)) |}.

Definition origin : Coordinate.t :=
  {| Coordinate.lat := 40%Q; Coordinate.lng := (-75)%Q |}.

(** A host whose draws are all [u], whose clock shows [hour] and whose
    network answers every query with [response]. *)
Definition sampleHost (u : Q) (hour : Z) (response : Outcome Response) : Host :=
  {| Math_random := fun _ => u;
     getHours := fun _ => hour;
     geolocation := Position 40%Q (-75)%Q;
     fetch := fun _ => response;
     typeErrorMessage := "Cannot read properties of undefined";
     numberToString := fun q => intToString (Qfloor q) |}.

(** A stand-in for the distance, flat and unscaled. *)
Definition flatDistance (lat1 lon1 lat2 lon2 : Q) : Q :=
  (Qabs (lat2 - lat1) + Qabs (lon2 - lon1))%Q.

Definition samplePlace (id : Z) (rating : Q) (priceLevel : Z) (distance : Q)
  : Place.t :=
  {| Place.id := id;
     Place.name := "Place";
     Place.address := "Address not available";
     Place.rating := rating;
     Place.userRatingsTotal := 20;
     Place.priceLevel := priceLevel;
     Place.distance := distance;
     Place.openNow := true;
     Place.location := origin;
     Place.amenity := Some "cafe"%string;
     Place.cuisine := "Various";
     Place.phone := None;
     Place.website := None;
     Place.osmId := id |}.

Definition samplePlaces : list Place.t :=
  [samplePlace 1 4.2 2 0.3; samplePlace 2 4.8 3 1.1;
   samplePlace 3 4.2 1 0.7; samplePlace 4 3.6 2 0.1].

(** The sort keys the comparator knows. *)
Definition sortKeys : list string :=
  ["distance"; "rating"; "price_low"; "price_high"]%string.

(** Responses of the data source: an empty document, one without a usable
    element, and a refusal. *)
Definition emptyResponse : Response :=
  {| ok := true; json := Returned (Some []) |}.

Definition unusableResponse : Response :=
  {| ok := true; json := Returned (Some [unnamed; equatorCafe]) |}.

Definition refusedResponse : Response :=
  {| ok := false; json := Thrown "Unexpected token" |}.

Definition scenarioResponse : Response :=
  {| ok := true; json := Returned (Some [blueCafe; unnamed]) |}.

Definition noCalls : Calls := {| randomCalls := 0; clockCalls := 0 |}.

Definition initialState : AppState :=
  {| selectedMood := "";
     places := [];
     loading := false;
     error := "";
     userLocation := None;
     sortBy := "distance";
     filterOpen := false;
     priceFilter := [1; 2; 3; 4]%Z;
     ratingFilter := 0%Q;
     searchRadius := 2000%Z |}.

Definition initialWorld : World := {| state := initialState; calls := noCalls |}.

(** ** Numbers *)

Lemma Qltb_lt (q r : Q) : Qltb q r = true <-> (q < r)%Q.
Proof.
  unfold Qltb. rewrite Qlt_alt.
  destruct (q ?= r)%Q; split; congruence.
Qed.

Lemma Qltb_ge (q r : Q) : Qltb q r = false <-> (r <= q)%Q.
Proof.
  rewrite <- not_true_iff_false, Qltb_lt.
  split; [apply Qnot_lt_le | apply Qle_not_lt].
Qed.

Lemma Qfloor_lower (z : Z) (x : Q) : (inject_Z z <= x)%Q -> (z <= Qfloor x)%Z.
Proof.
  intros H. rewrite <- (Qfloor_Z z). now apply Qfloor_resp_le.
Qed.

Lemma Qfloor_upper (z : Z) (x : Q) :
  (x < inject_Z (z + 1))%Q -> (Qfloor x <= z)%Z.
Proof.
  intros H.
  assert (Hlt : (inject_Z (Qfloor x) < inject_Z (z + 1))%Q)
    by (eapply Qle_lt_trans; [apply Qfloor_le | exact H]).
  rewrite <- Zlt_Qlt in Hlt. lia.
Qed.

(** ** Price tier *)

Lemma includes_elem_of {A : Type} `{EqDecision A} (l : list A) (x : A) :
  includes l x = true <-> x ∈ l.
Proof. unfold includes. apply bool_decide_eq_true. Qed.

Lemma priceLevelOf_table (tags : gmap string string) :
  priceLevelOf tags
  = priceTier (tags !! "amenity"%string) (tags !! "cuisine"%string).
Proof.
  unfold priceLevelOf, priceTier, includes.
  destruct (bool_decide (tags !! "amenity"%string = Some "restaurant"%string)
            && truthy (tags !! "cuisine"%string)) eqn:Hrest; [reflexivity|].
  repeat case_decide; repeat case_bool_decide; congruence.
Qed.

(** C1, as the code has it by design: the price level depends on the amenity
    and cuisine tags only; [fine_dining] is checked after [fast_food] and
    overrides it, so an element tagged both gets tier 4; the restaurant rule,
    on a restaurant whose cuisine is not [fine_dining], overrides the default
    tier only.  What a restaurant tagged [fine_dining] gets is left open. *)
Theorem priceLevelOf_by_design (tags tags' : gmap string string) (tier : Z) :
  (tags' !! "amenity"%string = tags !! "amenity"%string ->
   tags' !! "cuisine"%string = tags !! "cuisine"%string ->
   priceLevelOf tags' = priceLevelOf tags)
  /\ (designedTier (tags !! "amenity"%string) (tags !! "cuisine"%string)
      = Some tier ->
      priceLevelOf tags = tier)
  /\ (tags !! "amenity"%string = Some "fast_food"%string ->
      tags !! "cuisine"%string = Some "fine_dining"%string ->
      priceLevelOf tags = 4%Z).
Proof.
  split; [|split].
  - intros Ha Hc. rewrite !priceLevelOf_table, Ha, Hc. reflexivity.
  - rewrite priceLevelOf_table. unfold designedTier, priceTier.
    destruct (bool_decide (tags !! "amenity"%string = Some "restaurant"%string)
              && truthy (tags !! "cuisine"%string)).
    + destruct (bool_decide
                  (tags !! "cuisine"%string = Some "fine_dining"%string));
        [discriminate | now intros [= <-]].
    + repeat case_bool_decide; now intros [= <-].
  - intros Ha Hc. rewrite priceLevelOf_table, Ha, Hc. reflexivity.
Qed.

Lemma priceLevelOf_by_design_witness :
  priceLevelOf (<["amenity"%string := "fast_food"%string]>
                  (<["cuisine"%string := "fine_dining"%string]> ∅)) = 4%Z
  /\ priceLevelOf (<["amenity"%string := "restaurant"%string]>
                     (<["cuisine"%string := "sushi"%string]> ∅)) = 3%Z
  /\ priceLevelOf (<["name"%string := "Kiosk"%string]>
                     (<["amenity"%string := "fast_food"%string]> ∅))
     = priceLevelOf (<["amenity"%string := "fast_food"%string]> ∅).
Proof.
  split; [|split].
  - apply (proj2 (proj2 (priceLevelOf_by_design
                           (<["amenity"%string := "fast_food"%string]>
                              (<["cuisine"%string := "fine_dining"%string]> ∅))
                           ∅ 0))); reflexivity.
  - apply (proj1 (proj2 (priceLevelOf_by_design
                           (<["amenity"%string := "restaurant"%string]>
                              (<["cuisine"%string := "sushi"%string]> ∅))
                           ∅ 3))). reflexivity.
  - apply (proj1 (priceLevelOf_by_design
                    (<["amenity"%string := "fast_food"%string]> ∅)
                    (<["name"%string := "Kiosk"%string]>
                       (<["amenity"%string := "fast_food"%string]> ∅))
                    0)); reflexivity.
Defined.

(** C1 as stated fails: an element tagged [fast_food] and [fine_dining] does
    not get tier 1. *)
Lemma priceLevelOf_fast_food_fine_dining_not_1 :
  ~ (forall tags : gmap string string,
       tags !! "amenity"%string = Some "fast_food"%string ->
       tags !! "cuisine"%string = Some "fine_dining"%string ->
       priceLevelOf tags = 1%Z).
Proof.
  intros H.
  specialize (H (<["amenity"%string := "fast_food"%string]>
                  (<["cuisine"%string := "fine_dining"%string]> ∅))).
  vm_compute in H. specialize (H eq_refl eq_refl). discriminate H.
Qed.

(** On a restaurant tagged [fine_dining] the assignment of line 136 replaces
    the tier 4 that line 133 has just set. *)
Example priceLevelOf_restaurant_fine_dining :
  priceLevelOf (<["amenity"%string := "restaurant"%string]>
                 (<["cuisine"%string := "fine_dining"%string]> ∅)) = 2%Z.
Proof. reflexivity. Qed.

(** ** Opening hours *)

Lemma openNowOf_cafe (hour : Z) :
  openNowOf (Some "cafe"%string) hour = true <-> (7 <= hour < 22)%Z.
Proof. unfold openNowOf. simpl. lia. Qed.

Lemma openNowOf_restaurant (hour : Z) :
  openNowOf (Some "restaurant"%string) hour = true
  <-> (11 <= hour < 15)%Z \/ (17 <= hour < 23)%Z.
Proof. unfold openNowOf. simpl. lia. Qed.

Lemma openNowOf_other (amenity : option string) (hour : Z) :
  amenity <> Some "cafe"%string -> amenity <> Some "restaurant"%string ->
  amenity <> Some "bar"%string -> openNowOf amenity hour = true.
Proof.
  intros Hc Hr Hb. unfold openNowOf. repeat case_decide; congruence.
Qed.

(** C4, what the code does for a bar: the test [hour >= 16 && hour < 2] holds
    at no hour, so a bar is reported closed at 20 h and at every other
    hour. *)
Theorem openNowOf_bar_never_open :
  openNowOf (Some "bar"%string) 20 = false
  /\ forall hour : Z, openNowOf (Some "bar"%string) hour = false.
Proof.
  split; [reflexivity|].
  intros hour. unfold openNowOf. simpl. lia.
Qed.

(** ** Synthesised rating and review count *)

Lemma toFixed1_bounds (lo hi : Z) (x : Q) :
  (inject_Z lo <= x * 10 + (1 # 2))%Q ->
  (x * 10 + (1 # 2) < inject_Z (hi + 1))%Q ->
  (lo # 10 <= toFixed1 x)%Q /\ (toFixed1 x <= hi # 10)%Q.
Proof.
  intros Hlo Hhi. apply Qfloor_lower in Hlo. apply Qfloor_upper in Hhi.
  unfold toFixed1, Qle. cbn [Qnum Qden]. lia.
Qed.

Section DoubleFacts.

Local Open Scope Q_scope.

Lemma pow2_pos (e : Z) : (0 < pow2 e)%Q.
Proof. apply Qpower_0_lt. reflexivity. Qed.

Lemma pow2_add (a b : Z) : (pow2 (a + b) == pow2 a * pow2 b)%Q.
Proof. apply Qpower_plus. discriminate. Qed.

Lemma pow2_le (a b : Z) : (a <= b)%Z -> (pow2 a <= pow2 b)%Q.
Proof. intros H. apply Qpower_le_compat_l; [exact H | discriminate]. Qed.

Lemma pow2_lt (a b : Z) : (a < b)%Z -> (pow2 a < pow2 b)%Q.
Proof. intros H. apply Qpower_lt_compat_l; [exact H | reflexivity]. Qed.

Lemma pow2_lt_inv (a b : Z) : (pow2 a < pow2 b)%Q -> (a < b)%Z.
Proof. intros H. eapply Qpower_lt_compat_l_inv; [exact H | reflexivity]. Qed.

Lemma pow2_Z (e : Z) : (0 <= e)%Z -> (pow2 e == inject_Z (2 ^ e))%Q.
Proof. intros H. symmetry. apply (Zpower_Qpower 2 e H). Qed.

Lemma pow2_cancel (e : Z) : (pow2 (- e) * pow2 e == 1)%Q.
Proof. rewrite <- pow2_add. replace (- e + e)%Z with 0%Z by lia. reflexivity. Qed.

Lemma Qlog2_spec (x : Q) :
  (0 < x)%Q -> (pow2 (Qlog2 x) <= x)%Q /\ (x < pow2 (Qlog2 x + 1))%Q.
Proof.
  intros Hx. destruct x as [n d]. 
  assert (Hn : (0 < n)%Z) by (unfold Qlt in Hx; simpl in Hx; lia).
  pose proof (Z.log2_spec n Hn) as [Hn1 Hn2].
  pose proof (Z.log2_spec (Zpos d) (Pos2Z.is_pos d)) as [Hd1 Hd2].
  pose proof (Z.log2_nonneg n) as Ha.
  pose proof (Z.log2_nonneg (Zpos d)) as Hb.
  set (a := Z.log2 n) in *. set (b := Z.log2 (Zpos d)) in *.
  assert (HN : (n # d) * inject_Z (Zpos d) == inject_Z n).
  { unfold Qeq, Qmult, inject_Z. simpl. lia. }
  assert (HD1 : pow2 b <= inject_Z (Zpos d)).
  { rewrite pow2_Z by exact Hb. now rewrite <- Zle_Qle. }
  assert (HD2 : inject_Z (Zpos d) < pow2 (b + 1)).
  { rewrite pow2_Z by lia. rewrite <- Zlt_Qlt. replace (b + 1)%Z with (Z.succ b) by lia. exact Hd2. }
  assert (HN1 : pow2 a <= inject_Z n).
  { rewrite pow2_Z by exact Ha. now rewrite <- Zle_Qle. }
  assert (HN2 : inject_Z n < pow2 (a + 1)).
  { rewrite pow2_Z by lia. rewrite <- Zlt_Qlt. replace (a + 1)%Z with (Z.succ a) by lia. exact Hn2. }
  assert (Hup : (n # d) < pow2 (a - b + 1)).
  { apply Qnot_le_lt. intros Hle.
    assert (pow2 (a - b + 1) * pow2 b <= (n # d) * inject_Z (Zpos d)).
    { pose proof (pow2_pos b). pose proof (pow2_pos (a - b + 1)). nra. }
    rewrite <- pow2_add, HN in H. replace (a - b + 1 + b)%Z with (a + 1)%Z in H by lia.
    lra. }
  assert (Hlo : pow2 (a - b - 1) <= (n # d)).
  { apply Qnot_lt_le. intros Hlt.
    assert ((n # d) * inject_Z (Zpos d) < pow2 (a - b - 1) * pow2 (b + 1)).
    { pose proof (pow2_pos (b + 1)). pose proof (pow2_pos (a - b - 1)). 
      pose proof (pow2_pos b). nra. }
    rewrite <- pow2_add, HN in H. replace (a - b - 1 + (b + 1))%Z with a in H by lia.
    lra. }
  unfold Qlog2. cbn [Qnum Qden]. fold a b.
  destruct (Qle_bool (pow2 (a - b)) (n # d)) eqn:Hcmp.
  - apply Qle_bool_iff in Hcmp. split; assumption.
  - split; [exact Hlo|].
    replace (a - b - 1 + 1)%Z with (a - b)%Z by lia.
    apply Qnot_le_lt. intros Hle. apply Qle_bool_iff in Hle. congruence.
Qed.

Lemma ulpExponent_spec (x : Q) :
  0 < x ->
  (-1074 <= ulpExponent x)%Z
  /\ x < pow2 (ulpExponent x + 53)
  /\ ((-1074 < ulpExponent x)%Z -> pow2 (ulpExponent x + 52) <= x).
Proof.
  intros Hx. destruct (Qlog2_spec x Hx) as [Hlo Hup]. unfold ulpExponent.
  split; [lia|]. split.
  - eapply Qlt_le_trans; [exact Hup|]. apply pow2_le. lia.
  - intros He. replace (Z.max (Qlog2 x - 52) (-1074) + 52)%Z with (Qlog2 x) by lia.
    exact Hlo.
Qed.

Lemma roundEven_floor (y : Q) :
  (Qfloor y <= roundEven y <= Qfloor y + 1)%Z.
Proof.
  unfold roundEven. destruct (y - inject_Z (Qfloor y) ?= 1 # 2);
    [destruct (Z.even (Qfloor y))|..]; lia.
Qed.

Lemma roundEven_lower (N : Z) (y : Q) :
  inject_Z N <= y -> (N <= roundEven y)%Z.
Proof.
  intros H. pose proof (roundEven_floor y).
  assert (N <= Qfloor y)%Z; [|lia].
  rewrite <- (Qfloor_Z N). now apply Qfloor_resp_le.
Qed.

Lemma roundEven_upper (N : Z) (y : Q) :
  y <= inject_Z N -> (roundEven y <= N)%Z.
Proof.
  intros H. pose proof (roundEven_floor y) as Hf.
  assert (Hfl : (Qfloor y <= N)%Z).
  { rewrite <- (Qfloor_Z N). now apply Qfloor_resp_le. }
  destruct (Z.eq_dec (Qfloor y) N) as [Heq|Hne]; [|lia].
  unfold roundEven. rewrite Heq.
  destruct (y - inject_Z N ?= 1 # 2) eqn:Hc; [|lia|].
  - apply Qeq_alt in Hc. lra.
  - apply Qgt_alt in Hc. lra.
Qed.

Lemma roundEven_below_half (N : Z) (y : Q) :
  y < inject_Z N - (1 # 2) -> (roundEven y <= N - 1)%Z.
Proof.
  intros H. pose proof (roundEven_floor y) as Hf.
  assert (Hfl : (Qfloor y <= N - 1)%Z).
  { assert (Hy : inject_Z (Qfloor y) < inject_Z N).
    { eapply Qle_lt_trans; [apply Qfloor_le|]. lra. }
    rewrite <- Zlt_Qlt in Hy. lia. }
  destruct (Z.eq_dec (Qfloor y) (N - 1)%Z) as [Heq|Hne]; [|lia].
  unfold roundEven. rewrite Heq.
  assert (Hlt : y - inject_Z (N - 1) < 1 # 2).
  { unfold Z.sub. rewrite inject_Z_plus, inject_Z_opp.
    change (inject_Z 1) with 1. lra. }
  destruct (y - inject_Z (N - 1) ?= 1 # 2) eqn:Hc; [|lia|].
  - apply Qeq_alt in Hc. lra.
  - apply Qgt_alt in Hc. lra.
Qed.

Lemma isDouble_magnitude (a : Q) (m e : Z) :
  (Z.abs m < 2 ^ 53)%Z -> a == inject_Z m * pow2 e -> a < pow2 (e + 53).
Proof.
  intros Hm Ha. rewrite Ha, pow2_add, (pow2_Z 53) by lia.
  pose proof (pow2_pos e) as He.
  assert (Hlt : inject_Z m < inject_Z (2 ^ 53)) by (rewrite <- Zlt_Qlt; lia).
  nra.
Qed.

Lemma scaled_integer (m ea e : Z) :
  (e <= ea)%Z ->
  inject_Z m * pow2 ea * pow2 (- e) == inject_Z (m * 2 ^ (ea - e)).
Proof.
  intros Hle. rewrite inject_Z_mult, <- (pow2_Z (ea - e)) by lia.
  rewrite <- Qmult_assoc, <- pow2_add.
  replace (ea + - e)%Z with (ea - e)%Z by lia. reflexivity.
Qed.

Lemma roundPositive_lower (a x : Q) :
  0 < x -> isDouble a -> a <= x -> a <= roundPositive x.
Proof.
  intros Hx (m & ea & [Hea _] & Hm & Ha) Hax.
  destruct (ulpExponent_spec x Hx) as (He & Hup & Hlo).
  unfold roundPositive. set (e := ulpExponent x) in *.
  pose proof (pow2_pos e) as Hpe. pose proof (pow2_pos (- e)) as Hpne.
  pose proof (pow2_cancel e) as Hcancel.
  destruct (Z_le_gt_dec e ea) as [Hle|Hgt].
  - pose proof (scaled_integer m ea e Hle) as Hint.
    assert (Hr : (m * 2 ^ (ea - e) <= roundEven (x * pow2 (- e)))%Z).
    { apply roundEven_lower. rewrite <- Hint, <- Ha. nra. }
    rewrite Zle_Qle in Hr. rewrite <- Hint, <- Ha in Hr.
    assert (a * pow2 (- e) * pow2 e <= inject_Z (roundEven (x * pow2 (- e))) * pow2 e) by nra.
    assert (a * pow2 (- e) * pow2 e == a) by (rewrite <- Qmult_assoc, Hcancel; ring).
    lra.
  - assert (Hnorm : pow2 (e + 52) <= x) by (apply Hlo; lia).
    assert (Hr : (2 ^ 52 <= roundEven (x * pow2 (- e)))%Z).
    { apply roundEven_lower. rewrite <- (pow2_Z 52) by lia.
      assert (pow2 (e + 52) * pow2 (- e) == pow2 52).
      { rewrite <- pow2_add. replace (e + 52 + - e)%Z with 52%Z by lia. reflexivity. }
      nra. }
    rewrite Zle_Qle, <- (pow2_Z 52) in Hr by lia.
    assert (Hbig : pow2 (e + 52) <= inject_Z (roundEven (x * pow2 (- e))) * pow2 e).
    { rewrite (Z.add_comm e 52), pow2_add. nra. }
    pose proof (isDouble_magnitude a m ea Hm Ha) as Hmag.
    assert (pow2 (ea + 53) <= pow2 (e + 52)) by (apply pow2_le; lia).
    lra.
Qed.

Lemma roundPositive_upper (b x : Q) :
  0 < x -> isDouble b -> x <= b -> roundPositive x <= b.
Proof.
  intros Hx (m & eb & [Heb _] & Hm & Hb) Hxb.
  destruct (ulpExponent_spec x Hx) as (He & Hup & Hlo).
  unfold roundPositive. set (e := ulpExponent x) in *.
  pose proof (pow2_pos e) as Hpe. pose proof (pow2_pos (- e)) as Hpne.
  pose proof (pow2_cancel e) as Hcancel.
  destruct (Z_le_gt_dec e eb) as [Hle|Hgt].
  - pose proof (scaled_integer m eb e Hle) as Hint.
    assert (Hr : (roundEven (x * pow2 (- e)) <= m * 2 ^ (eb - e))%Z).
    { apply roundEven_upper. rewrite <- Hint, <- Hb. nra. }
    rewrite Zle_Qle in Hr. rewrite <- Hint, <- Hb in Hr.
    assert (inject_Z (roundEven (x * pow2 (- e))) * pow2 e <= b * pow2 (- e) * pow2 e) by nra.
    assert (b * pow2 (- e) * pow2 e == b) by (rewrite <- Qmult_assoc, Hcancel; ring).
    lra.
  - assert (Hnorm : pow2 (e + 52) <= x) by (apply Hlo; lia).
    pose proof (isDouble_magnitude b m eb Hm Hb) as Hmag.
    assert (pow2 (eb + 53) <= pow2 (e + 52)) by (apply pow2_le; lia).
    lra.
Qed.


Lemma roundDouble_lower (a x : Q) :
  isDouble a -> 0 <= x -> a <= x -> a <= roundDouble x.
Proof.
  intros Ha Hx Hax. unfold roundDouble.
  destruct (x ?= 0) eqn:Hc.
  - apply Qeq_alt in Hc. lra.
  - apply Qlt_alt in Hc. lra.
  - apply Qgt_alt in Hc. now apply roundPositive_lower.
Qed.

Lemma roundDouble_upper (b x : Q) :
  isDouble b -> 0 <= x -> x <= b -> roundDouble x <= b.
Proof.
  intros Hb Hx Hxb. unfold roundDouble.
  destruct (x ?= 0) eqn:Hc.
  - lra.
  - apply Qlt_alt in Hc. lra.
  - apply Qgt_alt in Hc. now apply roundPositive_upper.
Qed.

Lemma isDouble_small (m e : Z) :
  (-1074 <= e <= 971)%Z -> (Z.abs m < 2 ^ 53)%Z ->
  isDouble (inject_Z m * pow2 e).
Proof. intros He Hm. exists m, e. repeat split; try lia. Qed.

Lemma isDouble_0 : isDouble 0.
Proof. exists 0%Z, 0%Z. repeat split; try lia. Qed.

Lemma isDouble_1_5 : isDouble 1.5.
Proof. exists 3%Z, (-1)%Z. repeat split; try lia. Qed.

Lemma isDouble_3_5 : isDouble 3.5.
Proof. exists 7%Z, (-1)%Z. repeat split; try lia. Qed.

Lemma isDouble_5 : isDouble 5.
Proof. exists 5%Z, 0%Z. repeat split; try lia. Qed.

Lemma isDouble_256 : isDouble 256.
Proof. exists 256%Z, 0%Z. repeat split; try lia. Qed.

Lemma isDouble_below_1 (v : Q) :
  isDouble v -> v < 1 -> v <= 1 - pow2 (-53).
Proof.
  intros (m & e & [He _] & Hm & Hv) Hlt.
  assert (Hp : pow2 (-53) == 1 # 9007199254740992) by reflexivity.
  assert (Hq : pow2 53 == 9007199254740992) by reflexivity.
  destruct (Z_le_gt_dec (-53) e) as [Hle|Hgt].
  - assert (Hint : v * pow2 53 == inject_Z (m * 2 ^ (e + 53))).
    { rewrite Hv, inject_Z_mult, <- (pow2_Z (e + 53)) by lia.
      rewrite <- Qmult_assoc, <- pow2_add. reflexivity. }
    assert (HM : (m * 2 ^ (e + 53) < 2 ^ 53)%Z).
    { rewrite Zlt_Qlt, <- Hint, <- (pow2_Z 53) by lia. rewrite Hq. lra. }
    assert (HM' : (m * 2 ^ (e + 53) <= 2 ^ 53 - 1)%Z) by lia.
    rewrite Zle_Qle, <- Hint in HM'.
    change (inject_Z (2 ^ 53 - 1)) with 9007199254740991 in HM'.
    rewrite Hq in HM'. rewrite Hp. lra.
  - pose proof (isDouble_magnitude v m e Hm Hv) as Hmag.
    assert (pow2 (e + 53) <= pow2 (-1)) by (apply pow2_le; lia).
    assert (Hhalf : pow2 (-1) == 1 # 2) by reflexivity.
    rewrite Hhalf in H. rewrite Hp. lra.
Qed.

Lemma ratingOf_bounds (u : Q) :
  0 <= u -> u < 1 -> 3.5 <= ratingOf u /\ ratingOf u <= 5.
Proof.
  intros H0 H1. unfold ratingOf, parseFloat, js_add, js_mul.
  set (t := roundDouble (u * 1.5)).
  assert (Ht : 0 <= t /\ t <= 1.5).
  { split; [apply roundDouble_lower | apply roundDouble_upper];
      auto using isDouble_0, isDouble_1_5; lra. }
  set (s := roundDouble (3.5 + t)).
  assert (Hs : 3.5 <= s /\ s <= 5).
  { split; [apply roundDouble_lower | apply roundDouble_upper];
      auto using isDouble_3_5, isDouble_5; lra. }
  destruct (toFixed1_bounds 35 50 s) as [Hlo Hhi].
  - change (inject_Z 35) with (35 # 1). lra.
  - change (inject_Z (50 + 1)) with (51 # 1). lra.
  - assert (H35 : 35 # 10 == 3.5) by reflexivity.
    assert (H50 : 50 # 10 == 5) by reflexivity.
    split; [apply roundDouble_lower | apply roundDouble_upper];
      auto using isDouble_3_5, isDouble_5; lra.
Qed.

Lemma ulpExponent_binade (k : Z) (x : Q) :
  (-1022 <= k)%Z -> pow2 k <= x -> x < pow2 (k + 1) ->
  ulpExponent x = (k - 52)%Z.
Proof.
  intros Hk Hlo Hup.
  assert (Hx : 0 < x) by (pose proof (pow2_pos k); lra).
  destruct (ulpExponent_spec x Hx) as (He & Hup' & Hlo').
  assert (H1 : (k < ulpExponent x + 53)%Z).
  { apply pow2_lt_inv. lra. }
  destruct (Z.eq_dec (ulpExponent x) (-1074)%Z) as [Hmin|Hnorm]; [lia|].
  assert (H2 : (ulpExponent x + 52 < k + 1)%Z).
  { apply pow2_lt_inv.
    assert (pow2 (ulpExponent x + 52) <= x) by (apply Hlo'; lia). lra. }
  lia.
Qed.

Lemma reviewCountOf_bounds (v : Q) :
  isDouble v -> 0 <= v -> v < 1 -> (20 <= reviewCountOf v < 520)%Z.
Proof.
  intros Hd H0 H1. unfold reviewCountOf, js_mul.
  pose proof (isDouble_below_1 v Hd H1) as Hmax.
  assert (Hp : pow2 (-53) == 1 # 9007199254740992) by reflexivity.
  rewrite Hp in Hmax.
  assert (Hlo : (0 <= Qfloor (roundDouble (v * 500)))%Z).
  { apply Qfloor_lower. change (inject_Z 0) with 0.
    apply roundDouble_lower; [apply isDouble_0 | lra | lra]. }
  assert (Hhi : (Qfloor (roundDouble (v * 500)) <= 499)%Z).
  { apply Qfloor_upper. change (inject_Z (499 + 1)) with 500.
    destruct (Qlt_le_dec (v * 500) 256) as [Hsmall|Hbig].
    - assert (roundDouble (v * 500) <= 256)
        by (apply roundDouble_upper; [apply isDouble_256 | lra | lra]).
      lra.
    - assert (He : ulpExponent (v * 500) = (8 - 52)%Z).
      { apply ulpExponent_binade; [lia | |].
        - change (pow2 8) with 256. exact Hbig.
        - change (pow2 (8 + 1)) with 512. lra. }
      unfold roundDouble.
      assert (Hc : (v * 500 ?= 0) = Gt) by (apply Qgt_alt; lra).
      rewrite Hc. unfold roundPositive. rewrite He.
      assert (H44 : pow2 (- (8 - 52)) == 17592186044416) by reflexivity.
      assert (Hm44 : pow2 (8 - 52) == 1 # 17592186044416) by reflexivity.
      assert (Hr : (roundEven (v * 500 * pow2 (- (8 - 52)))
                    <= 500 * 17592186044416 - 1)%Z).
      { apply roundEven_below_half. rewrite H44.
        change (inject_Z (500 * 17592186044416)) with 8796093022208000. lra. }
      rewrite Zle_Qle in Hr.
      change (inject_Z (500 * 17592186044416 - 1)) with 8796093022207999 in Hr.
      rewrite Hm44. lra. }
  lia.
Qed.

End DoubleFacts.

(** The rounding of each operation shows in the result: on the double
    nearest to 0.1 the sum is the double just below 3.65, and the rating is
    3.6; on the double nearest to 0.018 the product is the double 9, and the
    review count is 29. *)
Example ratingOf_one_tenth :
  (ratingOf (roundDouble 0.1) == roundDouble 3.6)%Q.
Proof. vm_compute. reflexivity. Qed.

Example reviewCountOf_sample : reviewCountOf (roundDouble 0.018) = 29%Z.
Proof. vm_compute. reflexivity. Qed.

(** A draw close enough to 1 is rounded up to 5.0. *)
Example ratingOf_rounds_up_to_5 : (ratingOf (127 # 128) == 5)%Q.
Proof. vm_compute. reflexivity. Qed.

(** C6 as stated fails: the rounded rating is not always below 5.0. *)
Lemma ratingOf_not_below_5 :
  ~ (forall u : Q, (0 <= u)%Q -> (u < 1)%Q ->
       (3.5 <= ratingOf u)%Q /\ (ratingOf u < 5)%Q).
Proof.
  intros H. destruct (H (127 # 128)%Q) as [_ Hlt]; [easy | easy |].
  vm_compute in Hlt. discriminate Hlt.
Qed.

(** ** The normaliser *)

Section NormaliserFacts.

Variable calculateDistance : Q -> Q -> Q -> Q -> Q.
Variable host : Host.
Variable location : Coordinate.t.

Let toPlace' := toPlace calculateDistance host location.
Let processedPlaces' := processedPlaces calculateDistance host location.

Lemma toPlace_unresolved (element : Element.t) (c : Calls) :
  truthy (resolvedLat element) && truthy (resolvedLon element) = false ->
  toPlace' element c = (None, c).
Proof.
  unfold toPlace', toPlace, resolvedLat, resolvedLon.
  destruct (js_or (Element.lat element) _) as [lat|];
    destruct (js_or (Element.lon element) _) as [lon|];
    try reflexivity.
  cbn [truthy Truthy_option]. intros H.
  rewrite <- negb_andb, H. reflexivity.
Qed.

Lemma toPlace_resolved (element : Element.t) (c : Calls) :
  truthy (resolvedLat element) && truthy (resolvedLon element) = true ->
  exists place : Place.t,
    toPlace' element c = (Some place, afterPlace c)
    /\ Place.id place = Element.id element
    /\ Some (Coordinate.lat (Place.location place)) = resolvedLat element
    /\ Some (Coordinate.lng (Place.location place)) = resolvedLon element
    /\ Place.rating place = ratingOf (Math_random host (randomCalls c))
    /\ Place.userRatingsTotal place
       = reviewCountOf (Math_random host (S (randomCalls c)))
    /\ Place.priceLevel place
       = priceLevelOf (default ∅ (Element.tags element))
    /\ Place.openNow place
       = openNowOf (default ∅ (Element.tags element) !! "amenity"%string)
                   (getHours host (clockCalls c)).
Proof.
  unfold toPlace', toPlace, resolvedLat, resolvedLon.
  destruct (js_or (Element.lat element) _) as [lat|];
    destruct (js_or (Element.lon element) _) as [lon|];
    cbn [truthy Truthy_option]; try discriminate;
    try (rewrite andb_false_r; discriminate).
  intros H. rewrite <- negb_andb, H. cbn [negb].
  eexists. split; [reflexivity|]. cbn. repeat split; reflexivity.
Qed.

Lemma toPlace_Some (element : Element.t) (c c' : Calls) (place : Place.t) :
  toPlace' element c = (Some place, c') ->
  Place.rating place = ratingOf (Math_random host (randomCalls c))
  /\ Place.userRatingsTotal place
     = reviewCountOf (Math_random host (S (randomCalls c))).
Proof.
  intros H.
  destruct (truthy (resolvedLat element) && truthy (resolvedLon element))
    eqn:Hres.
  - destruct (toPlace_resolved element c Hres) as (p & Hp & _ & _ & _ & Hr & Hn & _).
    rewrite Hp in H. injection H as -> _. split; assumption.
  - rewrite (toPlace_unresolved element c Hres) in H. discriminate H.
Qed.

Lemma processedPlaces_cons (element : Element.t) (elements : list Element.t)
    (c : Calls) :
  processedPlaces' (element :: elements) c
  = if usable element
    then
      match fst (toPlace' element c) with
      | Some place =>
        (place :: fst (processedPlaces' elements (afterPlace c)),
         snd (processedPlaces' elements (afterPlace c)))
      | None => processedPlaces' elements c
      end
    else processedPlaces' elements c.
Proof.
  unfold processedPlaces', processedPlaces, usable. cbn [List.filter].
  destruct (hasName element); cbn [andb]; [|reflexivity].
  fold toPlace'.
  destruct (truthy (resolvedLat element) && truthy (resolvedLon element))
    eqn:Hres.
  - destruct (toPlace_resolved element c Hres) as (p & Hp & _).
    cbn [mapM]. unfold bind at 1 2 3. rewrite Hp. cbn [fst].
    unfold bind, ret.
    destruct (mapM toPlace' (List.filter hasName elements) (afterPlace c));
      reflexivity.
  - pose proof (toPlace_unresolved element c Hres) as Hp.
    cbn [mapM]. unfold bind at 1 2 3. rewrite Hp.
    unfold bind, ret.
    destruct (mapM toPlace' (List.filter hasName elements) c); reflexivity.
Qed.

Lemma processedPlaces_cons_usable (element : Element.t)
    (elements : list Element.t) (c : Calls) :
  usable element = true ->
  exists place : Place.t,
    toPlace' element c = (Some place, afterPlace c)
    /\ processedPlaces' (element :: elements) c
       = (place :: fst (processedPlaces' elements (afterPlace c)),
          snd (processedPlaces' elements (afterPlace c))).
Proof.
  intros Hu. rewrite processedPlaces_cons, Hu.
  unfold usable in Hu. rewrite <- andb_assoc in Hu.
  apply andb_true_iff in Hu as [_ Hres].
  destruct (toPlace_resolved element c Hres) as (p & Hp & _).
  exists p. rewrite Hp. split; reflexivity.
Qed.

Lemma processedPlaces_cons_unusable (element : Element.t)
    (elements : list Element.t) (c : Calls) :
  usable element = false ->
  processedPlaces' (element :: elements) c = processedPlaces' elements c.
Proof.
  intros Hu. rewrite processedPlaces_cons, Hu. reflexivity.
Qed.

(** X1: the normaliser returns one place per usable element (a non-empty
    name tag, and a latitude and a longitude that each resolve to a number
    other than 0), with the identifier of that element, in the order of the
    input. *)
Lemma processedPlaces_ids (elements : list Element.t) (c : Calls) :
  map Place.id (fst (processedPlaces' elements c))
  = map Element.id (List.filter usable elements).
Proof.
  revert c. induction elements as [|element elements IH]; intros c.
  - reflexivity.
  - cbn [List.filter]. destruct (usable element) eqn:Hu.
    + destruct (processedPlaces_cons_usable element elements c Hu)
        as (p & Hp & ->).
      cbn [fst map]. rewrite IH. f_equal.
      unfold usable in Hu. rewrite <- andb_assoc in Hu.
      apply andb_true_iff in Hu as [_ Hres].
      destruct (toPlace_resolved element c Hres) as (p' & Hp' & Hid & _).
      rewrite Hp in Hp'. injection Hp' as ->. exact Hid.
    + rewrite (processedPlaces_cons_unusable element elements c Hu). apply IH.
Qed.

Lemma processedPlaces_none_usable (elements : list Element.t) (c : Calls) :
  List.filter usable elements = [] -> processedPlaces' elements c = ([], c).
Proof.
  revert c. induction elements as [|element elements IH]; intros c.
  - reflexivity.
  - cbn [List.filter]. destruct (usable element) eqn:Hu; [discriminate|].
    intros H. rewrite (processedPlaces_cons_unusable element elements c Hu).
    now apply IH.
Qed.

Lemma processedPlaces_Forall (P : Place.t -> Prop) :
  (forall element c place c',
      toPlace' element c = (Some place, c') -> P place) ->
  forall (elements : list Element.t) (c : Calls),
    Forall P (fst (processedPlaces' elements c)).
Proof.
  intros HP elements.
  induction elements as [|element elements IH]; intros c.
  - constructor.
  - destruct (usable element) eqn:Hu.
    + destruct (processedPlaces_cons_usable element elements c Hu)
        as (p & Hp & ->).
      cbn [fst]. constructor; [eapply HP; exact Hp | apply IH].
    + rewrite (processedPlaces_cons_unusable element elements c Hu). apply IH.
Qed.

End NormaliserFacts.

(** C6, as the code has it: when every draw of the random source is a
    double in [0, 1), every place built by the normaliser has a rating
    between 3.5 and 5.0, both included, and a review count from 20 to 519;
    each operation on the draw rounds to the nearest double. *)
Theorem processedPlaces_rating_reviews_range
    (calculateDistance : Q -> Q -> Q -> Q -> Q) (host : Host)
    (location : Coordinate.t) (elements : list Element.t) (c : Calls) :
  (forall n : nat,
      isDouble (Math_random host n)
      /\ (0 <= Math_random host n)%Q /\ (Math_random host n < 1)%Q) ->
  Forall (fun place : Place.t =>
            ((3.5 <= Place.rating place)%Q /\ (Place.rating place <= 5)%Q)
            /\ (20 <= Place.userRatingsTotal place < 520)%Z)
         (fst (processedPlaces calculateDistance host location elements c)).
Proof.
  intros Hdraw. apply processedPlaces_Forall.
  intros element c0 place c' Hplace.
  apply toPlace_Some in Hplace as [-> ->].
  split.
  - apply ratingOf_bounds; apply Hdraw.
  - apply reviewCountOf_bounds; apply Hdraw.
Qed.

Lemma processedPlaces_rating_reviews_range_witness :
  Forall (fun place : Place.t =>
            ((3.5 <= Place.rating place)%Q /\ (Place.rating place <= 5)%Q)
            /\ (20 <= Place.userRatingsTotal place < 520)%Z)
         (fst (processedPlaces flatDistance
                 (sampleHost (127 # 128) 9 (Thrown "offline")) origin
                 [blueCafe; unnamed; equatorCafe] noCalls)).
Proof.
  apply processedPlaces_rating_reviews_range.
  intros n. simpl. split; [|split; [discriminate | reflexivity]].
  exists 127%Z, (-7)%Z. split; [lia|]. split; reflexivity.
Defined.

(** C5, what the code does with an element on the equator: a named element
    whose latitude is the number 0 is discarded, 0 being read as a missing
    value; so is one whose longitude is 0. *)
Theorem processedPlaces_discards_zero_coordinate
    (calculateDistance : Q -> Q -> Q -> Q -> Q) (host : Host)
    (location : Coordinate.t) (c : Calls) :
  hasName equatorCafe = true
  /\ Element.lat equatorCafe = Some 0%Q
  /\ Element.lon equatorCafe = Some 10%Q
  /\ processedPlaces calculateDistance host location [equatorCafe] c = ([], c)
  /\ processedPlaces calculateDistance host location
       [{| Element.id := 104; Element.lat := Some 51.5%Q;
           Element.lon := Some 0%Q; Element.center := None;
           Element.tags := Element.tags equatorCafe |}] c = ([], c).
Proof.
  do 3 (split; [reflexivity|]).
  split; apply processedPlaces_none_usable; reflexivity.
Qed.

(** ** Filter *)

Lemma keepPlace_true (priceFilter : list Z) (ratingFilter : Q)
    (place : Place.t) :
  keepPlace priceFilter ratingFilter place = true
  <-> In (Place.priceLevel place) priceFilter
      /\ (ratingFilter <= Place.rating place)%Q.
Proof.
  unfold keepPlace.
  destruct (includes priceFilter (Place.priceLevel place)) eqn:Hin; cbn [negb].
  - apply includes_elem_of, list_elem_of_In in Hin.
    destruct (Qltb (Place.rating place) ratingFilter) eqn:Hlt.
    + apply Qltb_lt, Qlt_not_le in Hlt. split; [discriminate | tauto].
    + apply Qltb_ge in Hlt. tauto.
  - split; [discriminate|]. intros [Hin' _].
    apply list_elem_of_In, includes_elem_of in Hin'. congruence.
Qed.

(** C8: a place is in the filtered list exactly when it is in the place list,
    its price level is one of the selected ones and its rating is at least
    the minimum. *)
Theorem filteredPlaces_spec (places : list Place.t) (priceFilter : list Z)
    (ratingFilter : Q) (place : Place.t) :
  In place (filteredPlaces places priceFilter ratingFilter)
  <-> In place places
      /\ In (Place.priceLevel place) priceFilter
      /\ (ratingFilter <= Place.rating place)%Q.
Proof.
  unfold filteredPlaces. rewrite filter_In, keepPlace_true. reflexivity.
Qed.

(** ** Sort *)

Section ArraySortFacts.

Context {A : Type}.
Variable comparefn : A -> A -> Q.

Lemma insertSorted_Permutation (x : A) (l : list A) :
  Permutation (x :: l) (insertSorted comparefn x l).
Proof.
  induction l as [|y l IH]; cbn [insertSorted].
  - reflexivity.
  - destruct (Qltb 0 (comparefn x y)).
    + rewrite perm_swap. now apply perm_skip.
    + reflexivity.
Qed.

Lemma array_sort_Permutation (l : list A) :
  Permutation l (array_sort comparefn l).
Proof.
  induction l as [|x l IH]; cbn [array_sort].
  - reflexivity.
  - rewrite <- insertSorted_Permutation. now apply perm_skip.
Qed.

(** A comparator that never answers with a positive number moves nothing. *)
Lemma array_sort_id (l : list A) :
  (forall a b, Qltb 0 (comparefn a b) = false) -> array_sort comparefn l = l.
Proof.
  intros Hcmp. induction l as [|x l IH]; cbn [array_sort].
  - reflexivity.
  - rewrite IH. destruct l as [|y l]; cbn [insertSorted].
    + reflexivity.
    + rewrite Hcmp. reflexivity.
Qed.

(** Comparators that order by a key, larger keys first. *)
Variable key : A -> Q.
Hypothesis comparefn_desc :
  forall a b, Qltb 0 (comparefn a b) = Qltb (key a) (key b).

Let before (a b : A) : Prop := (key b <= key a)%Q.

Lemma insertSorted_StronglySorted (x : A) (l : list A) :
  StronglySorted before l ->
  StronglySorted before (insertSorted comparefn x l).
Proof.
  induction 1 as [|y l Hl IH Hy]; cbn [insertSorted].
  - repeat constructor.
  - rewrite comparefn_desc. destruct (Qltb (key x) (key y)) eqn:Hxy.
    + constructor; [exact IH|].
      eapply Permutation_Forall; [apply insertSorted_Permutation|].
      constructor; [|exact Hy].
      apply Qltb_lt in Hxy. unfold before. now apply Qlt_le_weak.
    + apply Qltb_ge in Hxy.
      constructor; [constructor; assumption|].
      constructor; [exact Hxy|].
      eapply Forall_impl; [exact Hy|].
      intros z Hz. unfold before in *. now apply Qle_trans with (key y).
Qed.

Lemma array_sort_StronglySorted (l : list A) :
  StronglySorted before (array_sort comparefn l).
Proof.
  induction l as [|x l IH]; cbn [array_sort].
  - constructor.
  - now apply insertSorted_StronglySorted.
Qed.

Lemma insertSorted_filter_key (r : Q) (x : A) (l : list A) :
  List.filter (fun a => Qeq_bool (key a) r) (insertSorted comparefn x l)
  = List.filter (fun a => Qeq_bool (key a) r) (x :: l).
Proof.
  induction l as [|y l IH]; cbn [insertSorted].
  - reflexivity.
  - rewrite comparefn_desc. destruct (Qltb (key x) (key y)) eqn:Hxy.
    + cbn [List.filter] in *. rewrite IH.
      destruct (Qeq_bool (key x) r) eqn:Hx;
        destruct (Qeq_bool (key y) r) eqn:Hy; try reflexivity.
      apply Qltb_lt in Hxy. apply Qeq_bool_iff in Hx, Hy.
      rewrite Hx, Hy in Hxy. now apply Qlt_irrefl in Hxy.
    + reflexivity.
Qed.

Lemma array_sort_filter_key (r : Q) (l : list A) :
  List.filter (fun a => Qeq_bool (key a) r) (array_sort comparefn l)
  = List.filter (fun a => Qeq_bool (key a) r) l.
Proof.
  induction l as [|x l IH]; cbn [array_sort].
  - reflexivity.
  - rewrite insertSorted_filter_key. cbn [List.filter]. now rewrite IH.
Qed.

End ArraySortFacts.

Lemma compareBy_rating (a b : Place.t) :
  Qltb 0 (compareBy "rating" a b) = Qltb (Place.rating a) (Place.rating b).
Proof.
  change (compareBy "rating" a b) with (Place.rating b - Place.rating a)%Q.
  destruct (Qltb (Place.rating a) (Place.rating b)) eqn:H.
  - apply Qltb_lt in H. apply Qltb_lt. lra.
  - apply Qltb_ge in H. apply Qltb_ge. lra.
Qed.

Lemma compareBy_unknown (sortBy : string) (a b : Place.t) :
  ~ In sortBy sortKeys -> compareBy sortBy a b = 0%Q.
Proof.
  intros Hnot. unfold compareBy.
  repeat match goal with
  | |- context [String.eqb sortBy ?k] =>
    destruct (String.eqb_spec sortBy k) as [->|_];
      [exfalso; apply Hnot; cbn; tauto|]
  end.
  reflexivity.
Qed.

(** C9: sorting by [rating] permutes the list, puts higher ratings first and
    keeps the places of any one rating in the order they had; a sort key
    other than the four known ones leaves the list as it is. *)
Theorem sortedPlaces_rating_stable (l : list Place.t) :
  Permutation l (sortedPlaces l "rating")
  /\ StronglySorted (fun a b => (Place.rating b <= Place.rating a)%Q)
                    (sortedPlaces l "rating")
  /\ (forall r : Q,
        List.filter (fun a => Qeq_bool (Place.rating a) r)
                    (sortedPlaces l "rating")
        = List.filter (fun a => Qeq_bool (Place.rating a) r) l)
  /\ (forall sortBy : string,
        ~ In sortBy sortKeys -> sortedPlaces l sortBy = l).
Proof.
  unfold sortedPlaces. repeat split.
  - apply array_sort_Permutation.
  - apply array_sort_StronglySorted. apply compareBy_rating.
  - intros r. apply array_sort_filter_key. apply compareBy_rating.
  - intros sortBy Hnot. apply array_sort_id. intros a b.
    rewrite compareBy_unknown by exact Hnot. reflexivity.
Qed.

Lemma sortedPlaces_rating_stable_witness :
  sortedPlaces samplePlaces "name" = samplePlaces.
Proof.
  apply (proj2 (proj2 (proj2 (sortedPlaces_rating_stable samplePlaces)))).
  intros Hin. cbn in Hin. intuition discriminate.
Defined.

Example sortedPlaces_rating_sample :
  map Place.id (sortedPlaces samplePlaces "rating") = [2; 1; 3; 4]%Z.
Proof. reflexivity. Qed.

(** ** The stored place list is never reordered *)

Lemma alloc_fresh (v : list Place.t) (h : Heap.heap) :
  h !! fst (Heap.alloc v h) = None.
Proof.
  unfold Heap.alloc. cbn [fst].
  apply not_elem_of_dom. apply is_fresh.
Qed.

Lemma alloc_lookup (v : list Place.t) (h : Heap.heap) :
  snd (Heap.alloc v h) !! fst (Heap.alloc v h) = Some v.
Proof. unfold Heap.alloc. cbn [fst snd]. apply lookup_insert_eq. Qed.

Lemma alloc_frame (v w : list Place.t) (h : Heap.heap) (l : Heap.loc) :
  h !! l = Some w -> snd (Heap.alloc v h) !! l = Some w.
Proof.
  intros Hl. unfold Heap.alloc. cbn [snd].
  rewrite lookup_insert_ne; [exact Hl|].
  intros Heq. pose proof (alloc_fresh v h) as Hfresh.
  unfold Heap.alloc in Hfresh. cbn [fst] in Hfresh. congruence.
Qed.

(** C10: a render leaves every array that existed before it, the stored
    place list among them, with the contents it had; the filtered list and
    the sorted list are two new arrays. *)
Theorem render_frame (h : Heap.heap) (places : Heap.loc)
    (stored : list Place.t) (priceFilter : list Z) (ratingFilter : Q)
    (sortBy : string) :
  h !! places = Some stored ->
  exists (filtered sorted : Heap.loc) (h' : Heap.heap),
    Heap.render places priceFilter ratingFilter sortBy h
    = Some (filtered, sorted, h')
    /\ h' !! places = Some stored
    /\ (forall (l : Heap.loc) (v : list Place.t),
          h !! l = Some v -> h' !! l = Some v)
    /\ h' !! filtered = Some (filteredPlaces stored priceFilter ratingFilter)
    /\ h' !! sorted
       = Some (sortedPlaces (filteredPlaces stored priceFilter ratingFilter)
                            sortBy)
    /\ h !! filtered = None /\ h !! sorted = None /\ filtered <> sorted.
Proof.
  intros Hplaces.
  unfold Heap.render, Heap.Array_filter, Heap.Array_spread, Heap.Array_sort.
  rewrite Hplaces. cbn [mbind option_bind].
  fold (filteredPlaces stored priceFilter ratingFilter).
  set (kept := filteredPlaces stored priceFilter ratingFilter).
  destruct (Heap.alloc kept h) as [filtered h1] eqn:Hfiltered.
  pose proof (alloc_fresh kept h) as Hfresh1.
  pose proof (alloc_lookup kept h) as Hlook1.
  pose proof (fun w l => alloc_frame kept w h l) as Hframe1.
  rewrite Hfiltered in Hfresh1, Hlook1, Hframe1. cbn [fst snd] in *.
  rewrite Hlook1. cbn [mbind option_bind].
  destruct (Heap.alloc kept h1) as [copy h2] eqn:Hcopy.
  pose proof (alloc_fresh kept h1) as Hfresh2.
  pose proof (alloc_lookup kept h1) as Hlook2.
  pose proof (fun w l => alloc_frame kept w h1 l) as Hframe2.
  rewrite Hcopy in Hfresh2, Hlook2, Hframe2. cbn [fst snd] in *.
  rewrite Hlook2. cbn [mbind option_bind].
  assert (Hne : filtered <> copy) by congruence.
  assert (Hold : forall l v, h !! l = Some v ->
            <[copy := array_sort (compareBy sortBy) kept]> h2 !! l = Some v).
  { intros l v Hl. rewrite lookup_insert_ne.
    - apply Hframe2, Hframe1, Hl.
    - intros ->. apply Hframe1 in Hl. congruence. }
  exists filtered, copy, (<[copy := array_sort (compareBy sortBy) kept]> h2).
  split; [reflexivity|].
  split; [now apply Hold|].
  split; [exact Hold|].
  split; [rewrite lookup_insert_ne by congruence; now apply Hframe2|].
  split; [apply lookup_insert_eq|].
  split; [exact Hfresh1|].
  split; [|exact Hne].
  destruct (h !! copy) as [v|] eqn:Hc; [|reflexivity].
  apply Hframe1 in Hc. congruence.
Qed.

Lemma render_frame_witness :
  exists (filtered sorted : Heap.loc) (h' : Heap.heap),
    Heap.render 1%positive [1; 2]%Z 4%Q "rating" {[ 1%positive := samplePlaces ]}
    = Some (filtered, sorted, h')
    /\ h' !! 1%positive = Some samplePlaces
    /\ (forall (l : Heap.loc) (v : list Place.t),
          ({[ 1%positive := samplePlaces ]} : Heap.heap) !! l = Some v ->
          h' !! l = Some v)
    /\ h' !! filtered = Some (filteredPlaces samplePlaces [1; 2]%Z 4%Q)
    /\ h' !! sorted
       = Some (sortedPlaces (filteredPlaces samplePlaces [1; 2]%Z 4%Q) "rating")
    /\ ({[ 1%positive := samplePlaces ]} : Heap.heap) !! filtered = None
    /\ ({[ 1%positive := samplePlaces ]} : Heap.heap) !! sorted = None
    /\ filtered <> sorted.
Proof.
  apply render_frame. reflexivity.
Defined.

(** Sorting the filtered array itself, without the copy, would reorder it. *)
Example sort_in_place_reorders :
  forall h' : Heap.heap,
    Heap.Array_sort (compareBy "rating") 1%positive
                    {[ 1%positive := samplePlaces ]} = Some (1%positive, h') ->
    h' !! 1%positive <> Some samplePlaces.
Proof.
  intros h' H. unfold Heap.Array_sort in H.
  rewrite lookup_singleton_eq in H. cbn [mbind option_bind] in H.
  injection H as <-. rewrite lookup_insert_eq.
  intros Heq. injection Heq as Heq. vm_compute in Heq. discriminate Heq.
Qed.

(** ** The query text *)

Lemma append_assoc (s t u : string) : (s +:+ t) +:+ u = s +:+ t +:+ u.
Proof.
  induction s as [|a s IH]; [reflexivity|].
  change (String a ((s +:+ t) +:+ u) = String a (s +:+ t +:+ u)).
  now rewrite IH.
Qed.

Lemma occursIn_here (s before after : string) :
  occursIn s (before +:+ s +:+ after).
Proof. now exists before, after. Qed.

Lemma occursIn_append_l (s p q : string) :
  occursIn s q -> occursIn s (p +:+ q).
Proof.
  intros (before & after & ->). exists (p +:+ before), after.
  now rewrite append_assoc.
Qed.

Lemma occursIn_append_r (s p q : string) :
  occursIn s q -> occursIn s (q +:+ p).
Proof.
  intros (before & after & ->). exists before, (after +:+ p).
  now rewrite !append_assoc.
Qed.

Lemma occursIn_trans (s t q : string) :
  occursIn s t -> occursIn t q -> occursIn s q.
Proof.
  intros Hst (before & after & ->).
  now apply occursIn_append_l, occursIn_append_r.
Qed.

Lemma occursIn_join (f : string -> string) (x : string) (l : list string) :
  In x l -> occursIn (f x) (join (map f l)).
Proof.
  induction l as [|y l IH]; intros Hin; [destruct Hin|].
  cbn [map join foldr]. destruct Hin as [->|Hin].
  - apply (occursIn_here (f x) "").
  - apply occursIn_append_l. now apply IH.
Qed.

Lemma tagQuery_node (radius lat lng tag : string) :
  occursIn (around "node" tag radius lat lng) (tagQuery radius lat lng tag).
Proof.
  unfold tagQuery. apply occursIn_append_l, occursIn_append_l.
  apply (occursIn_here _ "").
Qed.

Lemma tagQuery_way (radius lat lng tag : string) :
  occursIn (around "way" tag radius lat lng) (tagQuery radius lat lng tag).
Proof.
  unfold tagQuery. do 5 apply occursIn_append_l.
  apply (occursIn_here _ "").
Qed.

(** For a registered mood the construction returns a query. *)
Lemma overpassQuery_registered (host : Host) (mood : string)
    (moodConfig : Mood.t) (location : Coordinate.t) (radiusInMeters : Z) :
  MOOD_PRESETS !! mood = Some moodConfig ->
  exists query : string,
    overpassQuery host mood location radiusInMeters = Returned query.
Proof.
  intros Hmood. unfold overpassQuery. rewrite Hmood.
  eexists. reflexivity.
Qed.

(** C3, as the code has it: the query is built for every radius, with no
    range check; for a registered mood it contains, for each tag of the mood,
    the [node] and [way] statements with that radius written in them. *)
Theorem overpassQuery_any_radius (host : Host) (mood : string)
    (moodConfig : Mood.t) (location : Coordinate.t) (radiusInMeters : Z) :
  MOOD_PRESETS !! mood = Some moodConfig ->
  exists query : string,
    overpassQuery host mood location radiusInMeters = Returned query
    /\ forall tag : string,
         In tag (Mood.tags moodConfig) ->
         occursIn (around "node" tag (intToString radiusInMeters)
                     (numberToString host (Coordinate.lat location))
                     (numberToString host (Coordinate.lng location))) query
         /\ occursIn (around "way" tag (intToString radiusInMeters)
                        (numberToString host (Coordinate.lat location))
                        (numberToString host (Coordinate.lng location))) query.
Proof.
  intros Hmood. unfold overpassQuery. rewrite Hmood.
  eexists. split; [reflexivity|].
  intros tag Hin.
  set (f := tagQuery (intToString radiusInMeters)
              (numberToString host (Coordinate.lat location))
              (numberToString host (Coordinate.lng location))).
  assert (Hjoin : occursIn (f tag) (join (map f (Mood.tags moodConfig))))
    by now apply occursIn_join.
  split.
  - eapply occursIn_trans; [apply tagQuery_node|].
    do 6 apply occursIn_append_l. apply occursIn_append_r. exact Hjoin.
  - eapply occursIn_trans; [apply tagQuery_way|].
    do 6 apply occursIn_append_l. apply occursIn_append_r. exact Hjoin.
Qed.

Lemma overpassQuery_any_radius_witness :
  exists query : string,
    overpassQuery (sampleHost (1 # 2) 9 (Thrown "offline")) "work" origin 400
    = Returned query
    /\ forall tag : string,
         In tag (Mood.tags Mood.work) ->
         occursIn (around "node" tag (intToString 400)
                     (intToString (Qfloor 40)) (intToString (Qfloor (-75))))
                  query
         /\ occursIn (around "way" tag (intToString 400)
                        (intToString (Qfloor 40)) (intToString (Qfloor (-75))))
                     query.
Proof.
  apply (overpassQuery_any_radius (sampleHost (1 # 2) 9 (Thrown "offline"))
           "work" Mood.work origin 400).
  reflexivity.
Defined.

Example intToString_400 : intToString 400 = "400"%string.
Proof. reflexivity. Qed.

(** C3 as stated fails: a radius below 500 is not rejected. *)
Lemma overpassQuery_accepts_400 :
  ~ (forall (host : Host) (mood : string) (location : Coordinate.t)
            (radiusInMeters : Z),
       (radiusInMeters < 500 \/ 5000 < radiusInMeters)%Z ->
       exists message : string,
         overpassQuery host mood location radiusInMeters = Thrown message).
Proof.
  intros H.
  destruct (H (sampleHost (1 # 2) 9 (Thrown "offline")) "work"%string
              origin 400%Z) as [message Hmsg]; [lia|].
  vm_compute in Hmsg. discriminate Hmsg.
Qed.

(** The only input the query construction raises on is an unregistered
    mood. *)
Lemma overpassQuery_Thrown (host : Host) (mood : string)
    (location : Coordinate.t) (radiusInMeters : Z) (message : string) :
  overpassQuery host mood location radiusInMeters = Thrown message
  <-> MOOD_PRESETS !! mood = None /\ message = typeErrorMessage host.
Proof.
  unfold overpassQuery. destruct (MOOD_PRESETS !! mood).
  - split; [discriminate | intros [? _]; discriminate].
  - split; [intros [= <-]; now split | intros [_ ->]; reflexivity].
Qed.

(** ** The outcome of a search *)

Section SearchFacts.

Variable calculateDistance : Q -> Q -> Q -> Q -> Q.
Variable host : Host.
Variable mood : string.
Variable moodConfig : Mood.t.
Variable latitude longitude : Q.
Variable response : Response.

Let location : Coordinate.t :=
  {| Coordinate.lat := latitude; Coordinate.lng := longitude |}.

Hypothesis geolocation_found : geolocation host = Position latitude longitude.
Hypothesis mood_registered : MOOD_PRESETS !! mood = Some moodConfig.

Lemma tryBlock_not_ok (w : World) :
  (forall query : string,
      overpassQuery host mood location (searchRadius (state w))
      = Returned query ->
      fetch host query = Returned response) ->
  ok response = false ->
  tryBlock calculateDistance host mood w
  = (Thrown "Failed to fetch places data",
     {| state := setUserLocation (Some location) (state w);
        calls := calls w |}).
Proof.
  intros Hfetch Hok.
  destruct (overpassQuery_registered host mood moodConfig location
              (searchRadius (state w)) mood_registered)
    as (query & Hquery).
  unfold tryBlock, andThen, await, update, readState, getUserLocation.
  rewrite geolocation_found. cbn [state calls]. fold location.
  change (searchRadius (setUserLocation (Some location) (state w)))
    with (searchRadius (state w)).
  rewrite Hquery, (Hfetch _ Hquery), Hok. reflexivity.
Qed.

Lemma tryBlock_none_usable (w : World) (elements : list Element.t) :
  (forall query : string,
      overpassQuery host mood location (searchRadius (state w))
      = Returned query ->
      fetch host query = Returned response) ->
  ok response = true ->
  json response = Returned (Some elements) ->
  List.filter usable elements = [] ->
  tryBlock calculateDistance host mood w
  = (Returned tt,
     {| state := setError noPlacesMessage
                   (setPlaces [] (setUserLocation (Some location) (state w)));
        calls := calls w |}).
Proof.
  intros Hfetch Hok Hjson Hnone.
  destruct (overpassQuery_registered host mood moodConfig location
              (searchRadius (state w)) mood_registered)
    as (query & Hquery).
  unfold tryBlock, andThen, await, update, readState, getUserLocation.
  rewrite geolocation_found. cbn [state calls]. fold location.
  change (searchRadius (setUserLocation (Some location) (state w)))
    with (searchRadius (state w)).
  rewrite Hquery, (Hfetch _ Hquery), Hok, Hjson. cbn [negb].
  unfold liftEff. cbn [state calls].
  rewrite (processedPlaces_none_usable _ _ _ _ _ Hnone). reflexivity.
Qed.

End SearchFacts.

(** C2, as the code has it: for a located user and a registered mood, a
    response that is not ok makes the search throw [Failed to fetch places
    data], which becomes the error message; an ok response without a usable
    element makes the search return without throwing, and the error message
    is then set to the no-places text.  Either way the place list is empty
    and loading is over. *)
Theorem searchPlacesOverpass_empty_or_failed
    (calculateDistance : Q -> Q -> Q -> Q -> Q) (host : Host) (mood : string)
    (moodConfig : Mood.t) (latitude longitude : Q) (response : Response)
    (elements : list Element.t) (w : World) :
  geolocation host = Position latitude longitude ->
  MOOD_PRESETS !! mood = Some moodConfig ->
  (forall query : string,
      overpassQuery host mood
        {| Coordinate.lat := latitude; Coordinate.lng := longitude |}
        (searchRadius (state w)) = Returned query ->
      fetch host query = Returned response) ->
  (ok response = true ->
   json response = Returned (Some elements)
   /\ List.filter usable elements = []) ->
  places (state (searchPlacesOverpass calculateDistance host mood w)) = []
  /\ loading (state (searchPlacesOverpass calculateDistance host mood w))
     = false
  /\ if ok response
     then
       fst (tryBlock calculateDistance host mood w) = Returned tt
       /\ error (state (searchPlacesOverpass calculateDistance host mood w))
          = noPlacesMessage
     else
       fst (tryBlock calculateDistance host mood w)
       = Thrown "Failed to fetch places data"
       /\ error (state (searchPlacesOverpass calculateDistance host mood w))
          = "Failed to fetch places data"%string.
Proof.
  intros Hgeo Hmood Hfetch Hbody.
  unfold searchPlacesOverpass.
  destruct (ok response) eqn:Hok.
  - destruct (Hbody eq_refl) as [Hjson Hnone].
    rewrite (tryBlock_none_usable calculateDistance host mood moodConfig
               latitude longitude response Hgeo Hmood _ elements)
      by assumption.
    rewrite (tryBlock_none_usable calculateDistance host mood moodConfig
               latitude longitude response Hgeo Hmood _ elements)
      by assumption.
    repeat split.
  - rewrite (tryBlock_not_ok calculateDistance host mood moodConfig
               latitude longitude response Hgeo Hmood)
      by assumption.
    rewrite (tryBlock_not_ok calculateDistance host mood moodConfig
               latitude longitude response Hgeo Hmood)
      by assumption.
    repeat split.
Qed.

Lemma searchPlacesOverpass_empty_or_failed_witness :
  (places (state (searchPlacesOverpass flatDistance
                    (sampleHost (1 # 2) 9 (Returned unusableResponse))
                    "work" initialWorld)) = []
   /\ loading (state (searchPlacesOverpass flatDistance
                        (sampleHost (1 # 2) 9 (Returned unusableResponse))
                        "work" initialWorld)) = false
   /\ if ok unusableResponse
      then
        fst (tryBlock flatDistance
               (sampleHost (1 # 2) 9 (Returned unusableResponse))
               "work" initialWorld) = Returned tt
        /\ error (state (searchPlacesOverpass flatDistance
                           (sampleHost (1 # 2) 9 (Returned unusableResponse))
                           "work" initialWorld)) = noPlacesMessage
      else
        fst (tryBlock flatDistance
               (sampleHost (1 # 2) 9 (Returned unusableResponse))
               "work" initialWorld) = Thrown "Failed to fetch places data"
        /\ error (state (searchPlacesOverpass flatDistance
                           (sampleHost (1 # 2) 9 (Returned unusableResponse))
                           "work" initialWorld))
           = "Failed to fetch places data"%string)
  /\ (places (state (searchPlacesOverpass flatDistance
                       (sampleHost (1 # 2) 9 (Returned refusedResponse))
                       "work" initialWorld)) = []
      /\ loading (state (searchPlacesOverpass flatDistance
                           (sampleHost (1 # 2) 9 (Returned refusedResponse))
                           "work" initialWorld)) = false
      /\ if ok refusedResponse
         then
           fst (tryBlock flatDistance
                  (sampleHost (1 # 2) 9 (Returned refusedResponse))
                  "work" initialWorld) = Returned tt
           /\ error (state (searchPlacesOverpass flatDistance
                              (sampleHost (1 # 2) 9 (Returned refusedResponse))
                              "work" initialWorld)) = noPlacesMessage
         else
           fst (tryBlock flatDistance
                  (sampleHost (1 # 2) 9 (Returned refusedResponse))
                  "work" initialWorld) = Thrown "Failed to fetch places data"
           /\ error (state (searchPlacesOverpass flatDistance
                              (sampleHost (1 # 2) 9 (Returned refusedResponse))
                              "work" initialWorld))
              = "Failed to fetch places data"%string).
Proof.
  split.
  - apply (searchPlacesOverpass_empty_or_failed flatDistance
             (sampleHost (1 # 2) 9 (Returned unusableResponse)) "work"
             Mood.work 40 (-75) unusableResponse [unnamed; equatorCafe]
             initialWorld).
    + reflexivity.
    + reflexivity.
    + intros query _. reflexivity.
    + intros _. split; reflexivity.
  - apply (searchPlacesOverpass_empty_or_failed flatDistance
             (sampleHost (1 # 2) 9 (Returned refusedResponse)) "work"
             Mood.work 40 (-75) refusedResponse [] initialWorld).
    + reflexivity.
    + reflexivity.
    + intros query _. reflexivity.
    + intros Hok. discriminate Hok.
Defined.

(** C2 as stated fails: after an ok response with an empty [elements] array
    the error message of the state is not empty, so the result is shown as an
    error. *)
Lemma emptyResponse_sets_error :
  ~ (error (state (searchPlacesOverpass flatDistance
                     (sampleHost (1 # 2) 9 (Returned emptyResponse))
                     "work" initialWorld)) = ""%string).
Proof. vm_compute. discriminate. Qed.

(** The scenario of a search for work places around (40.0, -75.0) when the
    source returns a named cafe and an element without a name: exactly one
    place, and no error message. *)
Example searchPlacesOverpass_scenario :
  let w := searchPlacesOverpass flatDistance
             (sampleHost (1 # 2) 9 (Returned scenarioResponse))
             "work" initialWorld in
  map Place.name (places (state w)) = ["Blue Cafe"%string]
  /\ error (state w) = ""%string
  /\ loading (state w) = false
  /\ map Place.id (sortedPlaces (places (state w)) "distance") = [101%Z].
Proof. vm_compute. repeat split. Qed.

(** An unregistered mood makes the search fail before any place is stored. *)
Example searchPlacesOverpass_unknown_mood :
  let w := searchPlacesOverpass flatDistance
             (sampleHost (1 # 2) 9 (Returned scenarioResponse))
             "vacation" initialWorld in
  places (state w) = []
  /\ error (state w) = "Cannot read properties of undefined"%string.
Proof. vm_compute. split; reflexivity. Qed.

(** * Further properties of the code *)

(** ** The normaliser: what every place satisfies *)

Lemma priceLevelOf_range (tags : gmap string string) :
  (1 <= priceLevelOf tags <= 4)%Z.
Proof.
  rewrite priceLevelOf_table. unfold priceTier.
  repeat match goal with
  | |- context [if ?b then _ else _] => destruct b
  end; lia.
Qed.

Lemma truthy_string_nonempty (v : option string) :
  truthy v = true -> exists s : string, v = Some s /\ s <> ""%string.
Proof.
  destruct v as [s|]; cbn; [|discriminate].
  intros H. exists s. split; [reflexivity|].
  intros ->. discriminate H.
Qed.

Lemma js_or_string_nonempty (v : option string) (fallback : string) :
  fallback <> ""%string ->
  default ""%string (js_or v (Some fallback)) <> ""%string.
Proof.
  intros Hfb. unfold js_or. destruct (truthy v) eqn:Hv.
  - apply truthy_string_nonempty in Hv as (s & -> & Hs). exact Hs.
  - exact Hfb.
Qed.

Lemma addressOf_nonempty (tags : gmap string string) :
  addressOf tags <> ""%string.
Proof.
  unfold addressOf. destruct (truthy (tags !! "addr:street"%string)).
  - destruct (default ""%string
                (js_or (tags !! "addr:housenumber"%string) (Some ""%string)));
      discriminate.
  - now apply js_or_string_nonempty.
Qed.

Section NormaliserInvariants.

Variable calculateDistance : Q -> Q -> Q -> Q -> Q.
Variable host : Host.
Variable location : Coordinate.t.

Let toPlace' := toPlace calculateDistance host location.
Let processedPlaces' := processedPlaces calculateDistance host location.

Lemma toPlace_fields (element : Element.t) (c c' : Calls) (place : Place.t) :
  toPlace' element c = (Some place, c') ->
  Place.name place
  = default ""%string (default ∅ (Element.tags element) !! "name"%string)
  /\ Place.address place = addressOf (default ∅ (Element.tags element))
  /\ Place.cuisine place
     = default ""%string
         (js_or (default ∅ (Element.tags element) !! "cuisine"%string)
                (Some "Various"%string))
  /\ Place.priceLevel place = priceLevelOf (default ∅ (Element.tags element))
  /\ Place.distance place
     = calculateDistance (Coordinate.lat location) (Coordinate.lng location)
         (Coordinate.lat (Place.location place))
         (Coordinate.lng (Place.location place))
  /\ truthy (Coordinate.lat (Place.location place)) = true
  /\ truthy (Coordinate.lng (Place.location place)) = true
  /\ Place.osmId place = Place.id place.
Proof.
  unfold toPlace', toPlace.
  fold (resolvedLat element) (resolvedLon element).
  destruct (resolvedLat element) as [lat|];
    destruct (resolvedLon element) as [lon|];
    try (intros [=]; fail).
  destruct (truthy lat) eqn:Hlat; destruct (truthy lon) eqn:Hlon;
    cbn [negb orb]; try (intros [=]; fail).
  intros [= <- _]. cbn. repeat split; assumption.
Qed.

Lemma processedPlaces_Forall_named (P : Place.t -> Prop) :
  (forall element c place c',
      hasName element = true ->
      toPlace' element c = (Some place, c') -> P place) ->
  forall (elements : list Element.t) (c : Calls),
    Forall P (fst (processedPlaces' elements c)).
Proof.
  intros HP elements.
  induction elements as [|element elements IH]; intros c.
  - constructor.
  - destruct (usable element) eqn:Hu.
    + destruct (processedPlaces_cons_usable calculateDistance host location
                  element elements c Hu) as (p & Hp & Heq).
      fold processedPlaces' in Heq. rewrite Heq.
      cbn [fst]. constructor; [|apply IH].
      apply (HP element c p (afterPlace c)); [|exact Hp].
      unfold usable in Hu. rewrite <- andb_assoc in Hu.
      now apply andb_true_iff in Hu as [Hn _].
    + pose proof (processedPlaces_cons_unusable calculateDistance host
                    location element elements c Hu) as Heq.
      fold processedPlaces' in Heq. rewrite Heq. apply IH.
Qed.

(** X4: the normaliser draws two random numbers and reads the clock once for
    each place it returns; a discarded element costs no draw and no clock
    reading. *)
Lemma processedPlaces_calls (elements : list Element.t) (c : Calls) :
  snd (processedPlaces' elements c)
  = {| randomCalls :=
         randomCalls c + 2 * length (fst (processedPlaces' elements c));
       clockCalls :=
         clockCalls c + length (fst (processedPlaces' elements c)) |}.
Proof.
  revert c. induction elements as [|element elements IH]; intros c.
  - change (processedPlaces' [] c) with (@nil Place.t, c).
    cbn [fst snd length]. destruct c. cbn [randomCalls clockCalls].
    f_equal; lia.
  - destruct (usable element) eqn:Hu.
    + destruct (processedPlaces_cons_usable calculateDistance host location
                  element elements c Hu) as (p & Hp & Heq).
      fold processedPlaces' in Heq. rewrite Heq. cbn [fst snd length].
      rewrite IH. unfold afterPlace. cbn [randomCalls clockCalls].
      f_equal; lia.
    + pose proof (processedPlaces_cons_unusable calculateDistance host
                    location element elements c Hu) as Heq.
      fold processedPlaces' in Heq. rewrite Heq. apply IH.
Qed.

(** X5: normalising a concatenation is normalising the first part and then
    the second, the second starting from the host calls the first has
    made. *)
Lemma processedPlaces_app (l1 l2 : list Element.t) (c : Calls) :
  processedPlaces' (l1 ++ l2) c
  = (fst (processedPlaces' l1 c)
     ++ fst (processedPlaces' l2 (snd (processedPlaces' l1 c))),
     snd (processedPlaces' l2 (snd (processedPlaces' l1 c)))).
Proof.
  revert c. induction l1 as [|element l1 IH]; intros c.
  - cbn [app]. change (processedPlaces' [] c) with (@nil Place.t, c).
    cbn [fst snd app]. now destruct (processedPlaces' l2 c).
  - cbn [app]. destruct (usable element) eqn:Hu.
    + destruct (processedPlaces_cons_usable calculateDistance host location
                  element (l1 ++ l2) c Hu) as (p & Hp & Heq).
      destruct (processedPlaces_cons_usable calculateDistance host location
                  element l1 c Hu) as (p' & Hp' & Heq').
      fold processedPlaces' in Heq, Heq'. fold toPlace' in Hp, Hp'.
      rewrite Hp in Hp'. injection Hp' as <-.
      rewrite Heq, Heq', IH. reflexivity.
    + pose proof (processedPlaces_cons_unusable calculateDistance host
                    location element (l1 ++ l2) c Hu) as Heq.
      pose proof (processedPlaces_cons_unusable calculateDistance host
                    location element l1 c Hu) as Heq'.
      fold processedPlaces' in Heq, Heq'. rewrite Heq, Heq'. apply IH.
Qed.

End NormaliserInvariants.

Lemma truthy_Q_nonzero (q : Q) : truthy q = true -> ~ (q == 0)%Q.
Proof.
  unfold truthy, Truthy_Q. intros H Hq.
  apply Qeq_bool_iff in Hq. rewrite Hq in H. discriminate H.
Qed.

(** X2: every place the normaliser returns has a non-empty name, a price
    level from 1 to 4, a latitude and a longitude other than 0, a non-empty
    address and a non-empty cuisine. *)
Theorem processedPlaces_place_invariants
    (calculateDistance : Q -> Q -> Q -> Q -> Q) (host : Host)
    (location : Coordinate.t) (elements : list Element.t) (c : Calls) :
  Forall (fun place : Place.t =>
            Place.name place <> ""%string
            /\ (1 <= Place.priceLevel place <= 4)%Z
            /\ ~ (Coordinate.lat (Place.location place) == 0)%Q
            /\ ~ (Coordinate.lng (Place.location place) == 0)%Q
            /\ Place.address place <> ""%string
            /\ Place.cuisine place <> ""%string)
         (fst (processedPlaces calculateDistance host location elements c)).
Proof.
  apply processedPlaces_Forall_named.
  intros element c0 place c' Hname Hplace.
  apply toPlace_fields in Hplace
    as (Hn & Ha & Hc & Hp & _ & Hlat & Hlon & _).
  rewrite Hn, Ha, Hc, Hp.
  split.
  { unfold hasName in Hname.
    destruct (Element.tags element) as [tags|]; [|discriminate].
    change (default ∅ (Some tags)) with tags.
    apply truthy_string_nonempty in Hname as (n & -> & Hne). exact Hne. }
  split; [apply priceLevelOf_range|].
  split; [now apply truthy_Q_nonzero|].
  split; [now apply truthy_Q_nonzero|].
  split; [apply addressOf_nonempty|].
  now apply js_or_string_nonempty.
Qed.

(** X3: the normaliser invents nothing: every place it returns comes from an
    element of the input that carries its identifier and its name, sits at
    the coordinate resolved for that element, and its distance is the one
    from the search origin to that coordinate. *)
Theorem processedPlaces_provenance
    (calculateDistance : Q -> Q -> Q -> Q -> Q) (host : Host)
    (location : Coordinate.t) (elements : list Element.t) (c : Calls) :
  Forall (fun place : Place.t =>
            exists (element : Element.t) (tags : gmap string string),
              In element elements
              /\ Element.tags element = Some tags
              /\ Place.id place = Element.id element
              /\ tags !! "name"%string = Some (Place.name place)
              /\ resolvedLat element
                 = Some (Coordinate.lat (Place.location place))
              /\ resolvedLon element
                 = Some (Coordinate.lng (Place.location place))
              /\ Place.distance place
                 = calculateDistance
                     (Coordinate.lat location) (Coordinate.lng location)
                     (Coordinate.lat (Place.location place))
                     (Coordinate.lng (Place.location place)))
         (fst (processedPlaces calculateDistance host location elements c)).
Proof.
  revert c. induction elements as [|element elements IH]; intros c.
  - constructor.
  - assert (Htail : forall c0,
      Forall (fun place : Place.t =>
                exists (element0 : Element.t) (tags : gmap string string),
                  In element0 (element :: elements)
                  /\ Element.tags element0 = Some tags
                  /\ Place.id place = Element.id element0
                  /\ tags !! "name"%string = Some (Place.name place)
                  /\ resolvedLat element0
                     = Some (Coordinate.lat (Place.location place))
                  /\ resolvedLon element0
                     = Some (Coordinate.lng (Place.location place))
                  /\ Place.distance place
                     = calculateDistance
                         (Coordinate.lat location) (Coordinate.lng location)
                         (Coordinate.lat (Place.location place))
                         (Coordinate.lng (Place.location place)))
             (fst (processedPlaces calculateDistance host location
                     elements c0))).
    { intros c0. eapply Forall_impl; [apply IH|].
      intros place (e & tags & Hin & Hrest).
      exists e, tags. split; [now right | exact Hrest]. }
    destruct (usable element) eqn:Hu.
    + destruct (processedPlaces_cons_usable calculateDistance host location
                  element elements c Hu) as (p & Hp & ->).
      cbn [fst]. constructor; [|apply Htail].
      unfold usable in Hu. rewrite <- andb_assoc in Hu.
      apply andb_true_iff in Hu as [Hname Hres].
      destruct (toPlace_resolved calculateDistance host location element c
                  Hres) as (p' & Hp' & Hid & Hlat & Hlon & _).
      rewrite Hp in Hp'. injection Hp' as <-.
      apply toPlace_fields in Hp as (Hn & _ & _ & _ & Hd & _).
      unfold hasName in Hname.
      destruct (Element.tags element) as [tags|] eqn:Htags; [|discriminate].
      apply truthy_string_nonempty in Hname as (n & Hlook & _).
      exists element, tags.
      split; [now left|]. split; [exact Htags|]. split; [exact Hid|].
      split.
      { change (default ∅ (Some tags)) with tags in Hn.
        rewrite Hlook in Hn. rewrite Hlook, Hn. reflexivity. }
      split; [now symmetry|]. split; [now symmetry | exact Hd].
    + rewrite (processedPlaces_cons_unusable calculateDistance host location
                 element elements c Hu).
      apply Htail.
Qed.

(** ** Sorting by any key *)

Section ArraySortByKey.

Context {A : Type}.
Variable comparefn : A -> A -> Q.
Variable key : A -> Q.
Hypothesis comparefn_desc :
  forall a b, Qltb 0 (comparefn a b) = Qltb (key a) (key b).

Let before (a b : A) : Prop := (key b <= key a)%Q.

Lemma insertSorted_head (x : A) (l : list A) :
  Forall (before x) l -> insertSorted comparefn x l = x :: l.
Proof.
  intros Hx. destruct l as [|y l]; [reflexivity|].
  cbn [insertSorted]. rewrite comparefn_desc.
  apply Forall_cons in Hx as [Hxy _].
  apply Qltb_ge in Hxy. now rewrite Hxy.
Qed.

Lemma array_sort_sorted (l : list A) :
  StronglySorted before l -> array_sort comparefn l = l.
Proof.
  induction 1 as [|x l Hl IH Hx]; cbn [array_sort]; [reflexivity|].
  rewrite IH. now apply insertSorted_head.
Qed.


Lemma insertSorted_filter (p : A -> bool) (x : A) (l : list A) :
  StronglySorted before l ->
  List.filter p (insertSorted comparefn x l)
  = if p x then insertSorted comparefn x (List.filter p l)
    else List.filter p l.
Proof.
  induction 1 as [|y l Hl IH Hy]; cbn [insertSorted List.filter].
  - destruct (p x); reflexivity.
  - rewrite comparefn_desc. destruct (Qltb (key x) (key y)) eqn:Hxy.
    + cbn [List.filter]. rewrite IH.
      destruct (p y), (p x); cbn [insertSorted]; try reflexivity.
      now rewrite comparefn_desc, Hxy.
    + cbn [List.filter]. destruct (p x) eqn:Hpx; [|reflexivity].
      destruct (p y) eqn:Hpy.
      * cbn [insertSorted]. now rewrite comparefn_desc, Hxy.
      * symmetry. apply insertSorted_head.
        apply Qltb_ge in Hxy.
        apply Forall_forall. intros z Hz.
        apply list_elem_of_In, filter_In in Hz as [Hz _].
        apply list_elem_of_In in Hz.
        rewrite Forall_forall in Hy.
        unfold before in *. apply Qle_trans with (key y); [|exact Hxy].
        now apply Hy.
Qed.

Lemma array_sort_filter (p : A -> bool) (l : list A) :
  List.filter p (array_sort comparefn l)
  = array_sort comparefn (List.filter p l).
Proof.
  induction l as [|x l IH]; cbn [array_sort List.filter]; [reflexivity|].
  rewrite insertSorted_filter
    by now apply (array_sort_StronglySorted comparefn key).
  rewrite IH. destruct (p x); reflexivity.
Qed.

End ArraySortByKey.

Lemma StronglySorted_weaken {A : Type} (R R' : A -> A -> Prop) (l : list A) :
  (forall a b, R a b -> R' a b) -> StronglySorted R l -> StronglySorted R' l.
Proof.
  intros HR. induction 1 as [|x l Hl IH Hx]; constructor; [exact IH|].
  eapply Forall_impl; [exact Hx|]. intros b. apply HR.
Qed.

Lemma Qltb_0_difference (x y z : Q) :
  (x == z - y)%Q -> Qltb 0 x = Qltb y z.
Proof.
  intros Hx. destruct (Qltb y z) eqn:Hyz.
  - apply Qltb_lt in Hyz. apply Qltb_lt. lra.
  - apply Qltb_ge in Hyz. apply Qltb_ge. lra.
Qed.

Lemma compareBy_sortKeyOf (sortBy : string) (a b : Place.t) :
  Qltb 0 (compareBy sortBy a b)
  = Qltb (sortKeyOf sortBy a) (sortKeyOf sortBy b).
Proof.
  apply Qltb_0_difference. unfold compareBy, sortKeyOf.
  repeat match goal with
  | |- context [String.eqb sortBy ?k] => destruct (String.eqb sortBy k)
  end.
  - lra.
  - lra.
  - unfold Z.sub. rewrite inject_Z_plus, !inject_Z_opp. lra.
  - unfold Z.sub. rewrite inject_Z_plus, inject_Z_opp. lra.
  - lra.
Qed.

Lemma StronglySorted_equal_keys {A : Type} (key : A -> Q) (l : list A) :
  (forall a b, In a l -> In b l -> (key a == key b)%Q) ->
  StronglySorted (fun a b => (key b <= key a)%Q) l.
Proof.
  induction l as [|x l IH]; intros Heq; constructor.
  - apply IH. intros a b Ha Hb. apply Heq; now right.
  - apply Forall_forall. intros b Hb. apply list_elem_of_In in Hb.
    apply Qle_lteq. right. apply Heq; [now right | now left].
Qed.

(** Places that the comparator cannot tell apart keep their order. *)
Lemma sortedPlaces_filter_class (sortBy : string) (p : Place.t -> bool)
    (l : list Place.t) :
  (forall a b, p a = true -> p b = true ->
     (sortKeyOf sortBy a == sortKeyOf sortBy b)%Q) ->
  List.filter p (sortedPlaces l sortBy) = List.filter p l.
Proof.
  intros Hclass. unfold sortedPlaces.
  rewrite (array_sort_filter (compareBy sortBy) (sortKeyOf sortBy)
             (compareBy_sortKeyOf sortBy)).
  apply (array_sort_sorted (compareBy sortBy) (sortKeyOf sortBy)
           (compareBy_sortKeyOf sortBy)).
  apply StronglySorted_equal_keys. intros a b Ha Hb.
  apply filter_In in Ha as [_ Ha]. apply filter_In in Hb as [_ Hb].
  now apply Hclass.
Qed.


(** X7: sorting by [price_low] puts lower price levels first, sorting by
    [price_high] puts higher price levels first, and either keeps the places
    of any one price level in the order they had. *)
Theorem sortedPlaces_price_stable (l : list Place.t) :
  StronglySorted (fun a b => (Place.priceLevel a <= Place.priceLevel b)%Z)
                 (sortedPlaces l "price_low")
  /\ StronglySorted (fun a b => (Place.priceLevel b <= Place.priceLevel a)%Z)
                    (sortedPlaces l "price_high")
  /\ forall level : Z,
       List.filter (fun a => (Place.priceLevel a =? level)%Z)
                   (sortedPlaces l "price_low")
       = List.filter (fun a => (Place.priceLevel a =? level)%Z) l
       /\ List.filter (fun a => (Place.priceLevel a =? level)%Z)
                      (sortedPlaces l "price_high")
          = List.filter (fun a => (Place.priceLevel a =? level)%Z) l.
Proof.
  split; [|split].
  - eapply StronglySorted_weaken;
      [|apply (array_sort_StronglySorted (compareBy "price_low")
                 (sortKeyOf "price_low") (compareBy_sortKeyOf "price_low"))].
    intros a b H.
    change (inject_Z (- Place.priceLevel b) <= inject_Z (- Place.priceLevel a))%Q
      in H.
    rewrite <- Zle_Qle in H. lia.
  - eapply StronglySorted_weaken;
      [|apply (array_sort_StronglySorted (compareBy "price_high")
                 (sortKeyOf "price_high") (compareBy_sortKeyOf "price_high"))].
    intros a b H.
    change (inject_Z (Place.priceLevel b) <= inject_Z (Place.priceLevel a))%Q
      in H.
    rewrite <- Zle_Qle in H. exact H.
  - intros level. split; apply sortedPlaces_filter_class; intros a b Ha Hb;
      apply Z.eqb_eq in Ha, Hb.
    + change (sortKeyOf "price_low" a) with (inject_Z (- Place.priceLevel a)).
      change (sortKeyOf "price_low" b) with (inject_Z (- Place.priceLevel b)).
      rewrite Ha, Hb. reflexivity.
    + change (sortKeyOf "price_high" a) with (inject_Z (Place.priceLevel a)).
      change (sortKeyOf "price_high" b) with (inject_Z (Place.priceLevel b)).
      rewrite Ha, Hb. reflexivity.
Qed.



(** ** Filtering *)

Lemma filter_all (A : Type) (f : A -> bool) (l : list A) :
  Forall (fun a => f a = true) l -> List.filter f l = l.
Proof.
  induction 1 as [|x l Hx Hl IH]; cbn [List.filter]; [reflexivity|].
  now rewrite Hx, IH.
Qed.

Lemma filter_sublist (A : Type) (f g : A -> bool) (l : list A) :
  (forall a, f a = true -> g a = true) ->
  sublist (List.filter f l) (List.filter g l).
Proof.
  intros Hfg. induction l as [|x l IH]; cbn [List.filter].
  - constructor.
  - destruct (f x) eqn:Hf.
    + rewrite (Hfg x Hf). now constructor.
    + destruct (g x); [now constructor | exact IH].
Qed.


(** X10: with every draw of the random source in [0, 1), the filter in its
    initial setting (price levels 1 to 4, minimum rating 0, or any minimum up
    to 3.5) drops none of the places the normaliser returns. *)
Theorem filteredPlaces_default_keeps_all
    (calculateDistance : Q -> Q -> Q -> Q -> Q) (host : Host)
    (location : Coordinate.t) (elements : list Element.t) (c : Calls)
    (ratingFilter : Q) :
  (forall n : nat, (0 <= Math_random host n)%Q /\ (Math_random host n < 1)%Q) ->
  (ratingFilter <= 3.5)%Q ->
  filteredPlaces
    (fst (processedPlaces calculateDistance host location elements c))
    [1; 2; 3; 4]%Z ratingFilter
  = fst (processedPlaces calculateDistance host location elements c).
Proof.
  intros Hdraw Hmin. apply filter_all.
  apply processedPlaces_Forall.
  intros element c0 place c' Hplace.
  apply keepPlace_true.
  pose proof Hplace as Hrating. apply toPlace_Some in Hrating as [Hr _].
  apply toPlace_fields in Hplace as (_ & _ & _ & Hp & _).
  split.
  - rewrite Hp. pose proof (priceLevelOf_range (default ∅ (Element.tags element))) as Hrange.
    assert (Hcases : priceLevelOf (default ∅ (Element.tags element)) = 1%Z
                     \/ priceLevelOf (default ∅ (Element.tags element)) = 2%Z
                     \/ priceLevelOf (default ∅ (Element.tags element)) = 3%Z
                     \/ priceLevelOf (default ∅ (Element.tags element)) = 4%Z)
      by lia.
    cbn [In]. destruct Hcases as [-> | [-> | [-> | ->]]]; tauto.
  - rewrite Hr.
    destruct (ratingOf_bounds (Math_random host (randomCalls c0)))
      as [Hlo _]; [apply Hdraw | apply Hdraw |].
    now apply Qle_trans with 3.5%Q.
Qed.

Lemma filteredPlaces_default_keeps_all_witness :
  filteredPlaces
    (fst (processedPlaces flatDistance
            (sampleHost (127 # 128) 9 (Thrown "offline")) origin
            [blueCafe; unnamed; equatorCafe] noCalls))
    [1; 2; 3; 4]%Z 0%Q
  = fst (processedPlaces flatDistance
           (sampleHost (127 # 128) 9 (Thrown "offline")) origin
           [blueCafe; unnamed; equatorCafe] noCalls).
Proof.
  apply filteredPlaces_default_keeps_all.
  - intros n. simpl. split; [discriminate | reflexivity].
  - discriminate.
Defined.

(** X11: tightening the filter (fewer price levels, a higher minimum rating)
    only removes places: the new filtered list is the old one with some
    places taken out, the others in the same order. *)
Theorem filteredPlaces_monotone (l : list Place.t)
    (priceFilter priceFilter' : list Z) (ratingFilter ratingFilter' : Q) :
  (forall level : Z, In level priceFilter' -> In level priceFilter) ->
  (ratingFilter <= ratingFilter')%Q ->
  sublist (filteredPlaces l priceFilter' ratingFilter')
          (filteredPlaces l priceFilter ratingFilter).
Proof.
  intros Hprice Hrating. apply filter_sublist.
  intros place Hkeep. apply keepPlace_true in Hkeep as [Hin Hr].
  apply keepPlace_true. split; [now apply Hprice|].
  now apply Qle_trans with ratingFilter'.
Qed.

Lemma filteredPlaces_monotone_witness :
  sublist (filteredPlaces samplePlaces [2]%Z 4.5%Q)
          (filteredPlaces samplePlaces [1; 2; 3]%Z 4%Q).
Proof.
  apply filteredPlaces_monotone.
  - intros level Hin. cbn in *. tauto.
  - discriminate.
Defined.

(** ** The price buttons *)

Lemma togglePrice_selected (level : Z) (prev : list Z) :
  In level prev ->
  togglePrice level prev = List.filter (fun l => negb (l =? level)%Z) prev.
Proof.
  intros Hin. unfold togglePrice.
  apply list_elem_of_In, includes_elem_of in Hin. now rewrite Hin.
Qed.

Lemma togglePrice_unselected (level : Z) (prev : list Z) :
  ~ In level prev -> togglePrice level prev = prev ++ [level].
Proof.
  intros Hnot. unfold togglePrice.
  destruct (includes prev level) eqn:Hin; [|reflexivity].
  apply includes_elem_of, list_elem_of_In in Hin. contradiction.
Qed.

(** X12: a click on a price button flips that level and no other: afterwards
    the level is selected exactly when it was not before, and every other
    level is selected exactly when it was before. *)
Theorem togglePrice_membership (level other : Z) (prev : list Z) :
  (In level (togglePrice level prev) <-> ~ In level prev)
  /\ (other <> level ->
      (In other (togglePrice level prev) <-> In other prev)).
Proof.
  destruct (in_dec Z.eq_dec level prev) as [Hin|Hnot].
  - rewrite (togglePrice_selected level prev Hin). split.
    + rewrite filter_In, Z.eqb_refl. cbn. split; [intros [_ H]; discriminate|].
      contradiction.
    + intros Hne. rewrite filter_In.
      split; [tauto|]. intros Ho. split; [exact Ho|].
      apply negb_true_iff, Z.eqb_neq. exact Hne.
  - rewrite (togglePrice_unselected level prev Hnot). split.
    + rewrite in_app_iff. cbn. tauto.
    + intros Hne. rewrite in_app_iff. cbn. split; [|tauto].
      intros [H|[H|[]]]; [exact H | congruence].
Qed.

Lemma togglePrice_membership_witness :
  In 3%Z (togglePrice 2 [1; 2; 3; 4]%Z) <-> In 3%Z [1; 2; 3; 4]%Z.
Proof.
  apply (proj2 (togglePrice_membership 2 3 [1; 2; 3; 4]%Z)). discriminate.
Defined.

(** X13: selecting a price level that was not selected and clicking it again
    gives back the list of selected levels exactly as it was. *)
Theorem togglePrice_twice (level : Z) (prev : list Z) :
  ~ In level prev -> togglePrice level (togglePrice level prev) = prev.
Proof.
  intros Hnot. rewrite (togglePrice_unselected level prev Hnot).
  rewrite togglePrice_selected by (apply in_app_iff; right; now left).
  rewrite List.filter_app. cbn [List.filter]. rewrite Z.eqb_refl.
  cbn [negb]. rewrite app_nil_r. apply filter_all.
  apply Forall_forall. intros l Hl. apply list_elem_of_In in Hl.
  apply negb_true_iff, Z.eqb_neq. intros ->. contradiction.
Qed.

Lemma togglePrice_twice_witness :
  togglePrice 3 (togglePrice 3 [1; 2]%Z) = [1; 2]%Z.
Proof.
  apply togglePrice_twice. cbn. intros [H|[H|[]]]; discriminate H.
Defined.



(** ** The price symbol *)

Lemma append_length (s t : string) :
  String.length (s +:+ t) = (String.length s + String.length t)%nat.
Proof.
  induction s as [|a s IH]; [reflexivity|].
  change (S (String.length (s +:+ t))
          = S (String.length s + String.length t)).
  now rewrite IH.
Qed.

Lemma repeatString_length (s : string) (count : nat) :
  String.length (repeatString s count) = (count * String.length s)%nat.
Proof.
  induction count as [|count IH]; cbn [repeatString]; [reflexivity|].
  rewrite append_length, IH. lia.
Qed.

(** X15: [getPriceSymbol] raises exactly when the level is negative or
    exceeds the longest string of the engine; otherwise the price symbol is a
    string of as many characters as the level. *)
Theorem getPriceSymbol_length (maxStringLength level : Z) :
  (getPriceSymbol maxStringLength level = None
   <-> (level < 0)%Z \/ (maxStringLength < level)%Z)
  /\ forall symbol : string,
       getPriceSymbol maxStringLength level = Some symbol ->
       Z.of_nat (String.length symbol) = level.
Proof.
  unfold getPriceSymbol.
  destruct (Z.ltb_spec level 0) as [Hneg|Hpos]; cbn [orb].
  - split; [tauto | discriminate].
  - destruct (Z.ltb_spec maxStringLength level) as [Hlong|Hfits].
    + split; [tauto | discriminate].
    + split; [split; [discriminate | lia]|].
      intros symbol [= <-]. rewrite repeatString_length. cbn. lia.
Qed.

Lemma getPriceSymbol_length_witness :
  Z.of_nat (String.length "$$$") = 3%Z.
Proof.
  apply (proj2 (getPriceSymbol_length 536870888 3) "$$$"%string). reflexivity.
Defined.

(** ** What a search does to the state *)

Ltac unfold_search :=
  unfold handleMoodSelect, searchPlacesOverpass, tryBlock, andThen, await,
    update, readState, throw, pure, liftEff, getUserLocation, withResults;
  cbn [state calls fst snd searchRadius setSelectedMood setPlaces setError
       setLoading setUserLocation].

Ltac split_search :=
  repeat (cbn [state calls]; match goal with
  | |- context [match geolocation ?h with _ => _ end] =>
    destruct (geolocation h) eqn:?
  | |- context [match overpassQuery ?h ?m ?l ?r with _ => _ end] =>
    destruct (overpassQuery h m l r) eqn:?
  | |- context [match fetch ?h ?q with _ => _ end] =>
    destruct (fetch h q) as [?response|?] eqn:?
  | |- context [negb (ok ?r)] => destruct (ok r) eqn:?; cbn [negb]
  | |- context [match json ?r with _ => _ end] =>
    destruct (json r) as [[?elements|]|?] eqn:?
  | |- context [processedPlaces ?f ?h ?l ?e ?c] =>
    destruct (processedPlaces f h l e c) as [[|? ?] ?] eqn:?
  end).

Lemma js_or_message_nonempty (message fallback : string) :
  fallback <> ""%string -> js_or message fallback <> ""%string.
Proof.
  intros Hfb. unfold js_or, truthy, Truthy_string.
  destruct (String.eqb_spec message ""); cbn [negb]; assumption.
Qed.

Lemma searchPlacesOverpass_error_iff_empty
    (calculateDistance : Q -> Q -> Q -> Q -> Q) (host : Host) (mood : string)
    (w : World) :
  loading (state (searchPlacesOverpass calculateDistance host mood w)) = false
  /\ (error (state (searchPlacesOverpass calculateDistance host mood w))
      = ""%string
      <-> places (state (searchPlacesOverpass calculateDistance host mood w))
          <> []).
Proof.
  unfold_search; split_search; cbn.
  all: split; [reflexivity|].
  all: split; [intros Hempty | intros Hne].
  all: try contradiction; try reflexivity; try discriminate.
  all: exfalso; revert Hempty; apply js_or_message_nonempty; discriminate.
Qed.

(** X16: once a search has settled, whatever the host answered, loading is
    over and the error message is empty exactly when at least one place is
    stored; so the component shows no spinner and no invitation, and it shows
    the error box exactly when it does not show the result panel. *)
Theorem searchPlacesOverpass_settled
    (calculateDistance : Q -> Q -> Q -> Q -> Q) (host : Host) (mood : string)
    (w : World) :
  loading (state (searchPlacesOverpass calculateDistance host mood w)) = false
  /\ (error (state (searchPlacesOverpass calculateDistance host mood w))
      = ""%string
      <-> places (state (searchPlacesOverpass calculateDistance host mood w))
          <> [])
  /\ spinner (view (state (searchPlacesOverpass calculateDistance host mood w)))
     = false
  /\ invitation
       (view (state (searchPlacesOverpass calculateDistance host mood w)))
     = false
  /\ errorBox
       (view (state (searchPlacesOverpass calculateDistance host mood w)))
     = negb (resultPanel
               (view (state (searchPlacesOverpass calculateDistance host
                               mood w)))).
Proof.
  destruct (searchPlacesOverpass_error_iff_empty calculateDistance host mood w)
    as [Hl He].
  set (s := state (searchPlacesOverpass calculateDistance host mood w)) in *.
  split; [exact Hl|]. split; [exact He|].
  unfold view. cbn [spinner invitation errorBox resultPanel].
  rewrite Hl. cbn [negb andb]. split; [reflexivity|].
  unfold truthy, Truthy_string.
  destruct (String.eqb_spec (error s) "") as [Hempty|Hfull]; cbn [negb].
  - apply He in Hempty. destruct (places s); [contradiction|].
    split; reflexivity.
  - destruct (places s) as [|p ps]; [split; reflexivity|].
    exfalso. apply Hfull, He. discriminate.
Qed.

(** X17: a search never touches the settings: the selected mood, the sort
    key, the filter panel, the price and rating filters and the radius are
    after it what they were before. *)
Theorem searchPlacesOverpass_keeps_settings
    (calculateDistance : Q -> Q -> Q -> Q -> Q) (host : Host) (mood : string)
    (w : World) :
  let s' := state (searchPlacesOverpass calculateDistance host mood w) in
  selectedMood s' = selectedMood (state w)
  /\ sortBy s' = sortBy (state w)
  /\ filterOpen s' = filterOpen (state w)
  /\ priceFilter s' = priceFilter (state w)
  /\ ratingFilter s' = ratingFilter (state w)
  /\ searchRadius s' = searchRadius (state w).
Proof.
  unfold_search. split_search; cbn; repeat split.
Qed.

(** X18: the outcome of a search does not depend on the places, the error
    message or the loading flag left by an earlier search: the previous
    result is replaced as a whole, never merged. *)
Theorem searchPlacesOverpass_replaces_results
    (calculateDistance : Q -> Q -> Q -> Q -> Q) (host : Host) (mood : string)
    (w : World) (places' : list Place.t) (error' : string) (loading' : bool) :
  searchPlacesOverpass calculateDistance host mood
    {| state := withResults places' error' loading' (state w);
       calls := calls w |}
  = searchPlacesOverpass calculateDistance host mood w.
Proof.
  unfold searchPlacesOverpass. cbn [state calls].
  change (setPlaces [] (setError "" (setLoading true
            (withResults places' error' loading' (state w)))))
    with (setPlaces [] (setError "" (setLoading true (state w)))).
  reflexivity.
Qed.

(** X19: when the position cannot be obtained, the search stops there: the
    error message is the one of the failure, no place is stored, the user
    location is left as it was, and neither the random source nor the clock
    has been used. *)
Theorem searchPlacesOverpass_no_position
    (calculateDistance : Q -> Q -> Q -> Q -> Q) (host : Host) (mood : string)
    (w : World) :
  (forall latitude longitude : Q,
      geolocation host <> Position latitude longitude) ->
  searchPlacesOverpass calculateDistance host mood w
  = {| state :=
         withResults []
           (match geolocation host with
            | Unsupported => "Geolocation not supported"
            | _ => "Please enable location access to find nearby places"
            end)
           false (state w);
       calls := calls w |}.
Proof.
  intros Hnone. unfold_search.
  destruct (geolocation host) as [| |latitude longitude] eqn:Hgeo;
    [reflexivity | reflexivity |].
  now destruct (Hnone latitude longitude).
Qed.

Lemma searchPlacesOverpass_no_position_witness :
  searchPlacesOverpass flatDistance
    {| Math_random := fun _ => 0%Q; getHours := fun _ => 9%Z;
       geolocation := Denied; fetch := fun _ => Returned scenarioResponse;
       typeErrorMessage := ""; numberToString := fun _ => ""%string |}
    "work" initialWorld
  = {| state :=
         withResults []
           "Please enable location access to find nearby places"
           false initialState;
       calls := noCalls |}.
Proof.
  apply (searchPlacesOverpass_no_position flatDistance
           {| Math_random := fun _ => 0%Q; getHours := fun _ => 9%Z;
              geolocation := Denied;
              fetch := fun _ => Returned scenarioResponse;
              typeErrorMessage := "";
              numberToString := fun _ => ""%string |}
           "work" initialWorld).
  intros latitude longitude. discriminate.
Defined.

(** X20: a search for a mood that is not registered records the position,
    then fails on reading the tags of the missing preset: the error message
    is the one of that failure, or the fallback text when it is empty, no
    place is stored, and the outcome does not depend on what the network
    would have answered. *)
Theorem searchPlacesOverpass_unknown_mood_fails
    (calculateDistance : Q -> Q -> Q -> Q -> Q) (host : Host) (mood : string)
    (latitude longitude : Q) (w : World) :
  geolocation host = Position latitude longitude ->
  MOOD_PRESETS !! mood = None ->
  searchPlacesOverpass calculateDistance host mood w
  = {| state :=
         setUserLocation
           (Some {| Coordinate.lat := latitude; Coordinate.lng := longitude |})
           (withResults []
              (js_or (typeErrorMessage host)
                     "Failed to fetch places. Please try again.")
              false (state w));
       calls := calls w |}.
Proof.
  intros Hgeo Hmood. unfold_search. rewrite Hgeo.
  unfold overpassQuery. rewrite Hmood. reflexivity.
Qed.

Lemma searchPlacesOverpass_unknown_mood_fails_witness :
  searchPlacesOverpass flatDistance
    (sampleHost (1 # 2) 9 (Returned scenarioResponse)) "vacation" initialWorld
  = {| state :=
         setUserLocation
           (Some {| Coordinate.lat := 40; Coordinate.lng := -75 |})
           (withResults []
              (js_or (typeErrorMessage
                        (sampleHost (1 # 2) 9 (Returned scenarioResponse)))
                     "Failed to fetch places. Please try again.")
              false initialState);
       calls := noCalls |}.
Proof.
  apply (searchPlacesOverpass_unknown_mood_fails flatDistance
           (sampleHost (1 # 2) 9 (Returned scenarioResponse)) "vacation"
           40 (-75) initialWorld); reflexivity.
Defined.

(** X21: when the position is found, the mood is registered and the source
    answers with an ok response whose document has an [elements] array, the
    stored places are exactly what the normaliser makes of that array with
    the position as origin; the error message is empty unless that list is
    empty, the position is recorded, and the host calls made are those of the
    normaliser. *)
Theorem searchPlacesOverpass_success
    (calculateDistance : Q -> Q -> Q -> Q -> Q) (host : Host) (mood : string)
    (moodConfig : Mood.t) (latitude longitude : Q) (response : Response)
    (elements : list Element.t) (w : World) :
  geolocation host = Position latitude longitude ->
  MOOD_PRESETS !! mood = Some moodConfig ->
  (forall query : string,
      overpassQuery host mood
        {| Coordinate.lat := latitude; Coordinate.lng := longitude |}
        (searchRadius (state w)) = Returned query ->
      fetch host query = Returned response) ->
  ok response = true ->
  json response = Returned (Some elements) ->
  searchPlacesOverpass calculateDistance host mood w
  = {| state :=
         setUserLocation
           (Some {| Coordinate.lat := latitude; Coordinate.lng := longitude |})
           (withResults
              (fst (processedPlaces calculateDistance host
                      {| Coordinate.lat := latitude;
                         Coordinate.lng := longitude |}
                      elements (calls w)))
              (match fst (processedPlaces calculateDistance host
                            {| Coordinate.lat := latitude;
                               Coordinate.lng := longitude |}
                            elements (calls w)) with
               | [] => noPlacesMessage
               | _ :: _ => ""%string
               end)
              false (state w));
       calls :=
         snd (processedPlaces calculateDistance host
                {| Coordinate.lat := latitude; Coordinate.lng := longitude |}
                elements (calls w)) |}.
Proof.
  intros Hgeo Hmood Hfetch Hok Hjson.
  destruct (overpassQuery_registered host mood moodConfig
              {| Coordinate.lat := latitude; Coordinate.lng := longitude |}
              (searchRadius (state w)) Hmood) as (query & Hquery).
  unfold_search. rewrite Hgeo, Hquery, (Hfetch _ Hquery), Hok, Hjson.
  cbn [negb state calls].
  destruct (processedPlaces calculateDistance host
              {| Coordinate.lat := latitude; Coordinate.lng := longitude |}
              elements (calls w)) as [[|place found] c]; reflexivity.
Qed.

Lemma searchPlacesOverpass_success_witness :
  searchPlacesOverpass flatDistance
    (sampleHost (1 # 2) 9 (Returned scenarioResponse)) "work" initialWorld
  = {| state :=
         setUserLocation
           (Some {| Coordinate.lat := 40; Coordinate.lng := -75 |})
           (withResults
              (fst (processedPlaces flatDistance
                      (sampleHost (1 # 2) 9 (Returned scenarioResponse))
                      {| Coordinate.lat := 40; Coordinate.lng := -75 |}
                      [blueCafe; unnamed] (calls initialWorld)))
              (match fst (processedPlaces flatDistance
                            (sampleHost (1 # 2) 9 (Returned scenarioResponse))
                            {| Coordinate.lat := 40; Coordinate.lng := -75 |}
                            [blueCafe; unnamed] (calls initialWorld)) with
               | [] => noPlacesMessage
               | _ :: _ => ""%string
               end)
              false (state initialWorld));
       calls :=
         snd (processedPlaces flatDistance
                (sampleHost (1 # 2) 9 (Returned scenarioResponse))
                {| Coordinate.lat := 40; Coordinate.lng := -75 |}
                [blueCafe; unnamed] (calls initialWorld)) |}.
Proof.
  apply (searchPlacesOverpass_success flatDistance
           (sampleHost (1 # 2) 9 (Returned scenarioResponse)) "work"
           Mood.work 40 (-75) scenarioResponse [blueCafe; unnamed]
           initialWorld).
  - reflexivity.
  - reflexivity.
  - intros query _. reflexivity.
  - reflexivity.
  - reflexivity.
Defined.

(** X22: when the request itself fails, or the body of an ok response cannot
    be read, the error message is the message of that failure, or the text
    [Failed to fetch places. Please try again.] when that message is empty;
    no place is stored and neither the random source nor the clock has been
    used. *)
Theorem searchPlacesOverpass_transport_failure
    (calculateDistance : Q -> Q -> Q -> Q -> Q) (host : Host) (mood : string)
    (moodConfig : Mood.t) (latitude longitude : Q) (message : string)
    (w : World) :
  geolocation host = Position latitude longitude ->
  MOOD_PRESETS !! mood = Some moodConfig ->
  (forall query : string,
      overpassQuery host mood
        {| Coordinate.lat := latitude; Coordinate.lng := longitude |}
        (searchRadius (state w)) = Returned query ->
      fetch host query = Thrown message
      \/ exists response : Response,
           fetch host query = Returned response /\ ok response = true
           /\ json response = Thrown message) ->
  searchPlacesOverpass calculateDistance host mood w
  = {| state :=
         setUserLocation
           (Some {| Coordinate.lat := latitude; Coordinate.lng := longitude |})
           (withResults []
              (if String.eqb message ""
               then "Failed to fetch places. Please try again."%string
               else message)
              false (state w));
       calls := calls w |}.
Proof.
  intros Hgeo Hmood Hfetch.
  destruct (overpassQuery_registered host mood moodConfig
              {| Coordinate.lat := latitude; Coordinate.lng := longitude |}
              (searchRadius (state w)) Hmood) as (query & Hquery).
  assert (Hmsg : js_or message "Failed to fetch places. Please try again."
                 = if String.eqb message ""
                   then "Failed to fetch places. Please try again."%string
                   else message).
  { unfold js_or, truthy, Truthy_string.
    now destruct (String.eqb message ""). }
  unfold_search. rewrite Hgeo, Hquery.
  destruct (Hfetch _ Hquery) as [Hrej|(response & Hresp & Hok & Hjson)].
  - rewrite Hrej. cbn [state calls]. now rewrite Hmsg.
  - rewrite Hresp, Hok, Hjson. cbn [negb state calls]. now rewrite Hmsg.
Qed.

Lemma searchPlacesOverpass_transport_failure_witness :
  searchPlacesOverpass flatDistance (sampleHost (1 # 2) 9 (Thrown ""))
    "work" initialWorld
  = {| state :=
         setUserLocation
           (Some {| Coordinate.lat := 40; Coordinate.lng := -75 |})
           (withResults []
              (if String.eqb "" ""
               then "Failed to fetch places. Please try again."%string
               else ""%string)
              false (state initialWorld));
       calls := calls initialWorld |}.
Proof.
  apply (searchPlacesOverpass_transport_failure flatDistance
           (sampleHost (1 # 2) 9 (Thrown "")) "work" Mood.work 40 (-75) ""
           initialWorld).
  - reflexivity.
  - reflexivity.
  - intros query _. left. reflexivity.
Defined.

(** X23: selecting a mood records it as the selected mood and otherwise does
    what a search for it does. *)
Theorem handleMoodSelect_search
    (calculateDistance : Q -> Q -> Q -> Q -> Q) (host : Host) (mood : string)
    (w : World) :
  handleMoodSelect calculateDistance host mood w
  = {| state :=
         setSelectedMood mood
           (state (searchPlacesOverpass calculateDistance host mood w));
       calls := calls (searchPlacesOverpass calculateDistance host mood w) |}.
Proof.
  unfold_search. split_search; reflexivity.
Qed.
